(** * Metadata embedder: [addImageMetadata] and its four format handlers

    A shallow embedding of [src/helpers/metadata-generator.js].

    - JavaScript strings are modelled as [string]; a character stands for a
      code unit below 256.
    - [path.extname], [path.basename], [path.dirname] and [path.join] are
      Node's POSIX implementations, written as the loops of Node's
      [lib/path.js] over character indices.
    - The file system is a finite map from path strings to file contents
      (no links, one name per file).  [fs.access] is an existence check.
    - [sharp(input).withMetadata(options).toFile(output)] belongs to the
      image library, not to this repository: it is a parameter of the
      development, and every call to it is recorded in a log together with
      the options object it was handed. *)

From Stdlib Require Import ZArith Ascii String List Lia Bool.
From stdpp Require Import base option list strings gmap.

Local Open Scope Z_scope.

(** ** JavaScript strings *)

Module JsString.

Definition chars (s : string) : list ascii := list_ascii_of_string s.
Definition of_chars (l : list ascii) : string := string_of_list_ascii l.

Definition len (l : list ascii) : Z := Z.of_nat (length l).

(** [String.prototype.slice(a, b)]: a negative index counts from the end,
    both are clamped to the string. *)
Definition slice_index (n x : Z) : Z :=
  if x <? 0 then Z.max (n + x) 0 else Z.min x n.

Definition slice (l : list ascii) (a b : Z) : list ascii :=
  let from := slice_index (len l) a in
  let to := slice_index (len l) b in
  take (Z.to_nat (to - from)) (drop (Z.to_nat from) l).

(** [charCodeAt(i)]; [None] stands for the [NaN] of an index out of range. *)
Definition charCodeAt (l : list ascii) (i : Z) : option ascii :=
  if i <? 0 then None else l !! Z.to_nat i.

(** [lastIndexOf(c)] for a one-character search string, [-1] if absent. *)
Fixpoint lastIndexOf_from (l : list ascii) (c : ascii) (i : Z) (found : Z) : Z :=
  match l with
  | [] => found
  | x :: l' => lastIndexOf_from l' c (i + 1) (if decide (x = c) then i else found)
  end.

Definition lastIndexOf (l : list ascii) (c : ascii) : Z :=
  lastIndexOf_from l c 0 (-1).

(** [toLowerCase] on code units below 256: A-Z and the Latin-1 capitals
    (0xC0-0xDE, without the multiplication sign 0xD7) move up by 32. *)
Definition lower_char (c : ascii) : ascii :=
  let n := N_of_ascii c in
  if ((65 <=? n) && (n <=? 90))%N
     || ((192 <=? n) && (n <=? 222) && negb (n =? 215))%N
  then ascii_of_N (n + 32) else c.

Definition toLowerCase (s : string) : string :=
  of_chars (map lower_char (chars s)).

(** [Array.prototype.join(sep)] on an array of strings. *)
Fixpoint join (sep : string) (l : list string) : string :=
  match l with
  | [] => ""
  | [x] => x
  | x :: l' => x +:+ sep +:+ join sep l'
  end.

End JsString.

(** ** Node's [path] module (POSIX) *)

Module Path.
Import JsString.

Definition CHAR_FORWARD_SLASH : ascii := "/"%char.
Definition CHAR_DOT : ascii := "."%char.

Definition isPosixPathSeparator (c : ascii) : bool :=
  bool_decide (c = CHAR_FORWARD_SLASH).
Definition isDot (c : ascii) : bool := bool_decide (c = CHAR_DOT).

(** *** extname

    The loop runs from the last index down to 0; [rs] holds the characters
    still to visit, the one at index [i] first.  A [break] returns. *)
Fixpoint extname_loop (rs : list ascii) (i : Z)
    (startDot startPart end_ : Z) (matchedSlash : bool) (preDotState : Z)
    : Z * Z * Z * Z :=
  match rs with
  | [] => (startDot, startPart, end_, preDotState)
  | code :: rs' =>
    if isPosixPathSeparator code then
      if negb matchedSlash then (startDot, i + 1, end_, preDotState)
      else extname_loop rs' (i - 1) startDot startPart end_ matchedSlash preDotState
    else
      let '(matchedSlash1, end1) :=
        if end_ =? -1 then (false, i + 1) else (matchedSlash, end_) in
      if isDot code then
        if startDot =? -1 then
          extname_loop rs' (i - 1) i startPart end1 matchedSlash1 preDotState
        else if negb (preDotState =? 1) then
          extname_loop rs' (i - 1) startDot startPart end1 matchedSlash1 1
        else
          extname_loop rs' (i - 1) startDot startPart end1 matchedSlash1 preDotState
      else if negb (startDot =? -1) then
        extname_loop rs' (i - 1) startDot startPart end1 matchedSlash1 (-1)
      else
        extname_loop rs' (i - 1) startDot startPart end1 matchedSlash1 preDotState
  end.

Definition extname_chars (path : list ascii) : list ascii :=
  let '(startDot, startPart, end_, preDotState) :=
    extname_loop (rev path) (len path - 1) (-1) 0 (-1) true 0 in
  if (startDot =? -1) || (end_ =? -1) || (preDotState =? 0)
     || ((preDotState =? 1) && (startDot =? end_ - 1) && (startDot =? startPart + 1))
  then []
  else slice path startDot end_.

Definition extname (path : string) : string := of_chars (extname_chars (chars path)).

(** *** basename *)

(** The loop taken when a non-empty suffix no longer than the path is
    given.  Result: [(start, end, firstNonSlashEnd)]. *)
Fixpoint basename_suffix_loop (suffix : list ascii) (rs : list ascii) (i : Z)
    (start end_ : Z) (matchedSlash : bool) (extIdx firstNonSlashEnd : Z)
    : Z * Z * Z :=
  match rs with
  | [] => (start, end_, firstNonSlashEnd)
  | code :: rs' =>
    if isPosixPathSeparator code then
      if negb matchedSlash then (i + 1, end_, firstNonSlashEnd)
      else basename_suffix_loop suffix rs' (i - 1) start end_ matchedSlash extIdx firstNonSlashEnd
    else
      let '(matchedSlash1, first1) :=
        if firstNonSlashEnd =? -1 then (false, i + 1)
        else (matchedSlash, firstNonSlashEnd) in
      if extIdx >=? 0 then
        if bool_decide (Some code = charCodeAt suffix extIdx) then
          if extIdx - 1 =? -1 then
            basename_suffix_loop suffix rs' (i - 1) start i matchedSlash1 (extIdx - 1) first1
          else
            basename_suffix_loop suffix rs' (i - 1) start end_ matchedSlash1 (extIdx - 1) first1
        else
          basename_suffix_loop suffix rs' (i - 1) start first1 matchedSlash1 (-1) first1
      else
        basename_suffix_loop suffix rs' (i - 1) start end_ matchedSlash1 extIdx first1
  end.

(** The loop taken otherwise.  Result: [(start, end)]. *)
Fixpoint basename_plain_loop (rs : list ascii) (i : Z)
    (start end_ : Z) (matchedSlash : bool) : Z * Z :=
  match rs with
  | [] => (start, end_)
  | code :: rs' =>
    if isPosixPathSeparator code then
      if negb matchedSlash then (i + 1, end_)
      else basename_plain_loop rs' (i - 1) start end_ matchedSlash
    else if end_ =? -1 then
      basename_plain_loop rs' (i - 1) start (i + 1) false
    else
      basename_plain_loop rs' (i - 1) start end_ matchedSlash
  end.

(** [suffix = None] is the call with one argument. *)
Definition basename_chars (path : list ascii) (suffix : option (list ascii)) : list ascii :=
  match suffix with
  | Some sfx =>
    if (0 <? len sfx) && (len sfx <=? len path) then
      if bool_decide (sfx = path) then []
      else
        let '(start, end_, firstNonSlashEnd) :=
          basename_suffix_loop sfx (rev path) (len path - 1)
                               0 (-1) true (len sfx - 1) (-1) in
        let end1 :=
          if start =? end_ then firstNonSlashEnd
          else if end_ =? -1 then len path
          else end_ in
        slice path start end1
    else
      let '(start, end_) := basename_plain_loop (rev path) (len path - 1) 0 (-1) true in
      if end_ =? -1 then [] else slice path start end_
  | None =>
    let '(start, end_) := basename_plain_loop (rev path) (len path - 1) 0 (-1) true in
    if end_ =? -1 then [] else slice path start end_
  end.

Definition basename (path : string) (suffix : string) : string :=
  of_chars (basename_chars (chars path) (Some (chars suffix))).

(** *** dirname

    The loop runs from the last index down to 1. Result: [end]. *)
Fixpoint dirname_loop (rs : list ascii) (i : Z) (end_ : Z) (matchedSlash : bool) : Z :=
  match rs with
  | [] => end_
  | code :: rs' =>
    if isPosixPathSeparator code then
      if negb matchedSlash then i
      else dirname_loop rs' (i - 1) end_ matchedSlash
    else dirname_loop rs' (i - 1) end_ false
  end.

Definition dirname_chars (path : list ascii) : list ascii :=
  match path with
  | [] => chars "."
  | c0 :: rest =>
    let hasRoot := isPosixPathSeparator c0 in
    let end_ := dirname_loop (rev rest) (len path - 1) (-1) true in
    if end_ =? -1 then (if hasRoot then chars "/" else chars ".")
    else if hasRoot && (end_ =? 1) then chars "//"
    else slice path 0 end_
  end.

Definition dirname (path : string) : string := of_chars (dirname_chars (chars path)).

(** *** normalize and join *)

(** State of [normalizeString]: [res], [lastSegmentLength], [lastSlash],
    [dots] and the last character read, [code] (0 before the first). *)
Record NormState := mkNormState {
  ns_res : list ascii;
  ns_lastSegmentLength : Z;
  ns_lastSlash : Z;
  ns_dots : Z;
  ns_code : ascii
}.

Definition norm_init : NormState := mkNormState [] 0 (-1) 0 zero.

Definition endsWithDotDot (res : list ascii) : bool :=
  bool_decide (charCodeAt res (len res - 1) = Some CHAR_DOT)
  && bool_decide (charCodeAt res (len res - 2) = Some CHAR_DOT).

(** The body of the loop once [code] is known, at index [i]. *)
Definition normalizeString_step (path : list ascii) (allowAboveRoot : bool)
    (i : Z) (code : ascii) (st : NormState) : NormState :=
  let res := ns_res st in
  let lastSlash := ns_lastSlash st in
  let dots := ns_dots st in
  if isPosixPathSeparator code then
    if (lastSlash =? i - 1) || (dots =? 1) then
      mkNormState res (ns_lastSegmentLength st) i 0 code
    else if dots =? 2 then
      let above :=
        if allowAboveRoot then
          mkNormState (if 0 <? len res then res ++ chars "/.." else chars "..") 2 i 0 code
        else mkNormState res (ns_lastSegmentLength st) i 0 code in
      if (len res <? 2) || negb (ns_lastSegmentLength st =? 2) || negb (endsWithDotDot res) then
        if 2 <? len res then
          let lastSlashIndex := lastIndexOf res CHAR_FORWARD_SLASH in
          if lastSlashIndex =? -1 then mkNormState [] 0 i 0 code
          else
            let res' := slice res 0 lastSlashIndex in
            mkNormState res' (len res' - 1 - lastIndexOf res' CHAR_FORWARD_SLASH) i 0 code
        else if negb (len res =? 0) then mkNormState [] 0 i 0 code
        else above
      else above
    else
      let seg := slice path (lastSlash + 1) i in
      mkNormState (if 0 <? len res then res ++ CHAR_FORWARD_SLASH :: seg else seg)
                  (i - lastSlash - 1) i 0 code
  else if isDot code && negb (dots =? -1) then
    mkNormState res (ns_lastSegmentLength st) lastSlash (dots + 1) code
  else
    mkNormState res (ns_lastSegmentLength st) lastSlash (-1) code.

(** [for (i = 0; i <= path.length; ++i)]: [rest] holds the characters from
    index [i] on; the last round reads a separator unless the path ended
    with one. *)
Fixpoint normalizeString_loop (path : list ascii) (allowAboveRoot : bool)
    (rest : list ascii) (i : Z) (st : NormState) : list ascii :=
  match rest with
  | code :: rest' =>
    normalizeString_loop path allowAboveRoot rest' (i + 1)
      (normalizeString_step path allowAboveRoot i code st)
  | [] =>
    if isPosixPathSeparator (ns_code st) then ns_res st
    else ns_res (normalizeString_step path allowAboveRoot i CHAR_FORWARD_SLASH st)
  end.

Definition normalizeString (path : list ascii) (allowAboveRoot : bool) : list ascii :=
  normalizeString_loop path allowAboveRoot path 0 norm_init.

Definition normalize_chars (path : list ascii) : list ascii :=
  match path with
  | [] => chars "."
  | c0 :: _ =>
    let isAbsolute := isPosixPathSeparator c0 in
    let trailingSeparator :=
      bool_decide (charCodeAt path (len path - 1) = Some CHAR_FORWARD_SLASH) in
    let path1 := normalizeString path (negb isAbsolute) in
    match path1 with
    | [] =>
      if isAbsolute then chars "/"
      else if trailingSeparator then chars "./" else chars "."
    | _ =>
      let path2 := if trailingSeparator then path1 ++ chars "/" else path1 in
      if isAbsolute then CHAR_FORWARD_SLASH :: path2 else path2
    end
  end.

Definition normalize (path : string) : string := of_chars (normalize_chars (chars path)).

(** [joined] is [None] while no non-empty argument has been seen. *)
Fixpoint join_loop (args : list (list ascii)) (joined : option (list ascii))
    : option (list ascii) :=
  match args with
  | [] => joined
  | arg :: args' =>
    if 0 <? len arg then
      join_loop args'
        (Some (match joined with
               | None => arg
               | Some j => j ++ CHAR_FORWARD_SLASH :: arg
               end))
    else join_loop args' joined
  end.

Definition join_chars (args : list (list ascii)) : list ascii :=
  match args with
  | [] => chars "."
  | _ =>
    match join_loop args None with
    | None => chars "."
    | Some joined => normalize_chars joined
    end
  end.

Definition join (args : list string) : string := of_chars (join_chars (map chars args)).

End Path.

Local Open Scope string_scope.
Local Open Scope list_scope.

(** ** Data model *)

(** [metadata], as the JSDoc of [addImageMetadata] types it. *)
Record ImageMetadata := mkImageMetadata {
  title : string;
  description : string;
  keywords : list string
}.

(** The object literals handed to [withMetadata]; the fields of an object
    are kept in the order they are written. *)
#[warnings="-register-all"] Inductive JsVal :=
| VStr (s : string)
| VArr (items : list JsVal)
| VObj (fields : list (string * JsVal)).

Fixpoint assoc (k : string) (fields : list (string * JsVal)) : option JsVal :=
  match fields with
  | [] => None
  | (k', v) :: fields' => if bool_decide (k' = k) then Some v else assoc k fields'
  end.

(** Property read [v.k]. *)
Definition get (k : string) (v : JsVal) : option JsVal :=
  match v with
  | VObj fields => assoc k fields
  | _ => None
  end.

(** Read along a path of property names, [v.k1.k2...]. *)
Fixpoint get_path (ks : list string) (v : JsVal) : option JsVal :=
  match ks with
  | [] => Some v
  | k :: ks' => match get k v with Some v' => get_path ks' v' | None => None end
  end.

(** An error object: the name of its class and its message. *)
Record JsError := mkJsError {
  err_name : string;
  err_message : string
}.

(** [new Error(message)] *)
Definition Error (message : string) : JsError := mkJsError "Error" message.

(** The object [addImageMetadata] resolves to. *)
Record EmbedResult := mkEmbedResult {
  status : string;
  outputPath : string;
  message : string
}.

(** ** The world: files and the log of library calls *)

Definition FileData := list Byte.byte.

Inductive Event :=
| EvAccess (path : string)
| EvToFile (input : string) (options : JsVal) (output : string).

Record World := mkWorld {
  files : gmap string FileData;
  log : list Event
}.

(** How a computation ends: with a value, or with a thrown error (a rejected
    promise, under [await]). *)
Inductive Completion (A : Type) :=
| Normal (a : A)
| Throw (e : JsError).
Arguments Normal {A} a.
Arguments Throw {A} e.

Definition Js (A : Type) : Type := World -> Completion A * World.

Definition ret {A} (a : A) : Js A := fun w => (Normal a, w).
Definition throw {A} (e : JsError) : Js A := fun w => (Throw e, w).
Definition bind {A B} (m : Js A) (k : A -> Js B) : Js B :=
  fun w => match m w with
           | (Normal a, w') => k a w'
           | (Throw e, w') => (Throw e, w')
           end.
(** [try { m } catch (error) { handler(error) }] *)
Definition try_catch {A} (m : Js A) (handler : JsError -> Js A) : Js A :=
  fun w => match m w with
           | (Normal a, w') => (Normal a, w')
           | (Throw e, w') => handler e w'
           end.

Notation "'await' x <- m ;; k" := (bind m (fun x => k))
  (at level 10, x name, m at level 99, k at level 200).

(** [fs.access(path)] with the default mode: resolves when the path exists,
    rejects with the system error otherwise. *)
Definition ENOENT (syscall path : string) : JsError :=
  Error ("ENOENT: no such file or directory, " +:+ syscall +:+ " '" +:+ path +:+ "'").

Definition fs_access (path : string) : Js unit :=
  fun w =>
    let w' := mkWorld (files w) (log w ++ [EvAccess path]) in
    match files w !! path with
    | Some _ => (Normal tt, w')
    | None => (Throw (ENOENT "access" path), w')
    end.

(** ** The embedder *)

Section Embedder.

(** [sharp(input).withMetadata(options).toFile(output)], the image library:
    from the files, it gives the error it rejects with, if any, and the
    files afterwards. *)
Variable sharp_toFile :
  gmap string FileData -> string -> JsVal -> string ->
  option JsError * gmap string FileData.

Definition sharp_withMetadata_toFile (input : string) (options : JsVal)
    (output : string) : Js unit :=
  fun w =>
    let '(rejected, files') := sharp_toFile (files w) input options output in
    let w' := mkWorld files' (log w ++ [EvToFile input options output]) in
    match rejected with
    | None => (Normal tt, w')
    | Some e => (Throw e, w')
    end.

Definition keywordArray (metadata : ImageMetadata) : JsVal :=
  VArr (map VStr (keywords metadata)).

(** *** handleJpegMetadata *)
Definition exifMetadata (metadata : ImageMetadata) : JsVal :=
  VObj [("IFD0", VObj [("ImageDescription", VStr (description metadata));
                       ("XPTitle", VStr (title metadata));
                       ("XPKeywords", VStr (JsString.join ";" (keywords metadata)))])].

Definition iptcMetadata (metadata : ImageMetadata) : JsVal :=
  VObj [("ObjectName", VStr (title metadata));
        ("Caption", VStr (description metadata));
        ("Keywords", keywordArray metadata)].

Definition jpegOptions (metadata : ImageMetadata) : JsVal :=
  VObj [("exif", exifMetadata metadata); ("iptc", iptcMetadata metadata)].

Definition handleJpegMetadata (inputPath outputPath : string)
    (metadata : ImageMetadata) : Js unit :=
  sharp_withMetadata_toFile inputPath (jpegOptions metadata) outputPath.

(** *** handlePngMetadata *)
Definition pngMetadata (metadata : ImageMetadata) : JsVal :=
  VObj [("Title", VStr (title metadata));
        ("Description", VStr (description metadata));
        ("Keywords", VStr (JsString.join ", " (keywords metadata)))].

Definition pngOptions (metadata : ImageMetadata) : JsVal :=
  VObj [("png", VObj [("text", pngMetadata metadata)])].

Definition handlePngMetadata (inputPath outputPath : string)
    (metadata : ImageMetadata) : Js unit :=
  sharp_withMetadata_toFile inputPath (pngOptions metadata) outputPath.

(** *** handleWebPMetadata *)
Definition webpMetadata (metadata : ImageMetadata) : JsVal :=
  VObj [("Title", VStr (title metadata));
        ("Description", VStr (description metadata));
        ("Keywords", VStr (JsString.join ", " (keywords metadata)))].

Definition webpOptions (metadata : ImageMetadata) : JsVal :=
  VObj [("webp", VObj [("xmp", webpMetadata metadata)])].

Definition handleWebPMetadata (inputPath outputPath : string)
    (metadata : ImageMetadata) : Js unit :=
  sharp_withMetadata_toFile inputPath (webpOptions metadata) outputPath.

(** *** handleTiffMetadata *)
Definition tiffMetadata (metadata : ImageMetadata) : JsVal :=
  VObj [("ImageDescription", VStr (description metadata));
        ("DocumentName", VStr (title metadata));
        ("Keywords", VStr (JsString.join ";" (keywords metadata)))].

Definition tiffOptions (metadata : ImageMetadata) : JsVal :=
  VObj [("tiff", tiffMetadata metadata)].

Definition handleTiffMetadata (inputPath outputPath : string)
    (metadata : ImageMetadata) : Js unit :=
  sharp_withMetadata_toFile inputPath (tiffOptions metadata) outputPath.

(** *** addImageMetadata *)

(** [const ext = path.extname(imagePath).toLowerCase()] *)
Definition ext_of (imagePath : string) : string :=
  JsString.toLowerCase (Path.extname imagePath).

(** [const outputPath = path.join(path.dirname(imagePath),
      `${path.basename(imagePath, ext)}_with_metadata${ext}`)] *)
Definition outputPath_of (imagePath : string) : string :=
  let ext := ext_of imagePath in
  Path.join [Path.dirname imagePath;
             Path.basename imagePath ext +:+ "_with_metadata" +:+ ext].

(** The [switch (ext)] statement. *)
Definition switch_ext (ext imagePath outputPath : string)
    (metadata : ImageMetadata) : Js unit :=
  if bool_decide (ext = ".jpg") || bool_decide (ext = ".jpeg") then
    handleJpegMetadata imagePath outputPath metadata
  else if bool_decide (ext = ".png") then
    handlePngMetadata imagePath outputPath metadata
  else if bool_decide (ext = ".webp") then
    handleWebPMetadata imagePath outputPath metadata
  else if bool_decide (ext = ".tiff") then
    handleTiffMetadata imagePath outputPath metadata
  else
    throw (Error ("Unsupported image format: " +:+ ext)).

(** The body of the [try] block.  [None] stands for [null] or [undefined];
    [!imagePath] also holds for the empty string, [!metadata] only for
    [null] and [undefined]. *)
Definition addImageMetadata_try (imagePath : option string)
    (metadata : option ImageMetadata) : Js EmbedResult :=
  match imagePath, metadata with
  | Some imagePath, Some metadata =>
    if bool_decide (imagePath = "") then
      throw (Error "Image path and metadata are required")
    else
      await _ <- fs_access imagePath ;;
      let ext := ext_of imagePath in
      let outputPath := outputPath_of imagePath in
      await _ <- switch_ext ext imagePath outputPath metadata ;;
      ret (mkEmbedResult "success" outputPath "Metadata added successfully")
  | _, _ => throw (Error "Image path and metadata are required")
  end.

Definition addImageMetadata (imagePath : option string)
    (metadata : option ImageMetadata) : Js EmbedResult :=
  try_catch (addImageMetadata_try imagePath metadata)
    (fun error => throw (Error ("Failed to add metadata: " +:+ err_message error))).

End Embedder.

(** ** Vocabulary of the statements *)

(** The case labels of the [switch]. *)
Definition supported_extensions : list string :=
  [".jpg"; ".jpeg"; ".png"; ".webp"; ".tiff"].

Definition supported_ext (ext : string) : bool :=
  bool_decide (ext ∈ supported_extensions).

(** The options object the case for [ext] hands to the image library. *)
Definition options_of (ext : string) (metadata : ImageMetadata) : JsVal :=
  if bool_decide (ext = ".jpg") || bool_decide (ext = ".jpeg") then jpegOptions metadata
  else if bool_decide (ext = ".png") then pngOptions metadata
  else if bool_decide (ext = ".webp") then webpOptions metadata
  else tiffOptions metadata.

(** The text the [catch] block puts in front of every message. *)
Definition failure_prefix : string := "Failed to add metadata: ".

(** A path component has no separator; a directory prefix is empty or ends
    with one. *)
Definition no_slash (l : list ascii) : Prop :=
  Forall (fun c => c <> Path.CHAR_FORWARD_SLASH) l.

Definition ends_dir (l : list ascii) : Prop :=
  l = [] \/ exists l', l = l' ++ [Path.CHAR_FORWARD_SLASH].

(** The state of [normalizeString] after the characters [l], read from
    index [i] on. *)
Fixpoint norm_steps (path : list ascii) (allowAboveRoot : bool)
    (l : list ascii) (i : Z) (st : Path.NormState) : Path.NormState :=
  match l with
  | [] => st
  | c :: l' =>
    norm_steps path allowAboveRoot l' (i + 1)
      (Path.normalizeString_step path allowAboveRoot i c st)
  end.

(** What is assumed of the image library for the frame property: [toFile]
    writes at no path but its output. *)
Definition writes_only_output
    (sharp_toFile : gmap string FileData -> string -> JsVal -> string ->
                    option JsError * gmap string FileData) : Prop :=
  forall fs input options output q,
    q <> output -> (sharp_toFile fs input options output).2 !! q = fs !! q.

(** An options object without the key [k]. *)
Fixpoint remove_field (k : string) (fields : list (string * JsVal))
    : list (string * JsVal) :=
  match fields with
  | [] => []
  | (k', v) :: fields' =>
    if bool_decide (k' = k) then remove_field k fields'
    else (k', v) :: remove_field k fields'
  end.

Definition without_key (k : string) (options : JsVal) : JsVal :=
  match options with
  | VObj fields => VObj (remove_field k fields)
  | _ => options
  end.

(** An image library that does not know the option key [k]: what it does
    is the same with and without the key.  The [withMetadata] of the library
    the handlers call documents the options [orientation], [icc], [exif] and
    [density]. *)
Definition ignores_key (k : string)
    (sharp_toFile : gmap string FileData -> string -> JsVal -> string ->
                    option JsError * gmap string FileData) : Prop :=
  forall fs input options output,
    sharp_toFile fs input options output
    = sharp_toFile fs input (without_key k options) output.

(** ** Two instances of the image library, to run the embedder

    [sharp_copy] writes the bytes of the input at the output and rejects when
    the input is missing; [sharp_rejecting e] always rejects with [e] and
    leaves the files alone. *)

Definition sharp_copy (fs : gmap string FileData) (input : string)
    (options : JsVal) (output : string) : option JsError * gmap string FileData :=
  match fs !! input with
  | Some data => (None, <[output := data]> fs)
  | None => (Some (Error ("Input file is missing: " +:+ input)), fs)
  end.

Definition sharp_rejecting (e : JsError) (fs : gmap string FileData) (input : string)
    (options : JsVal) (output : string) : option JsError * gmap string FileData :=
  (Some e, fs).

Definition sunset : ImageMetadata :=
  mkImageMetadata "Sunset" "A beach at dusk" ["beach"; "sunset"].

Definition one_file (path : string) : World :=
  mkWorld {[ path := [Byte.x89; Byte.x50] ]} [].

Definition no_file : World := mkWorld ∅ [].

(** ** The caller: the route [/generate-seo/multiple] of [src/index.js]

    The reply of the model is cleaned of its code fence and parsed; then each
    uploaded file is handed to [addImageMetadata] with the entry of the parsed
    array at its index, and the uploads are removed in the [finally] block.
    [JSON.parse] and the calls to the model are not part of this development:
    the parsed array comes in as a list of metadata records. *)

(** White space of [String.prototype.trim], among the code units below 256:
    tab, line feed, vertical tab, form feed, carriage return, space and the
    no-break space. *)
Definition isWhiteSpace (c : ascii) : bool :=
  let n := N_of_ascii c in
  ((n =? 9) || (n =? 10) || (n =? 11) || (n =? 12) || (n =? 13)
   || (n =? 32) || (n =? 160))%N.

Fixpoint trimStart_chars (l : list ascii) : list ascii :=
  match l with
  | [] => []
  | c :: l' => if isWhiteSpace c then trimStart_chars l' else l
  end.

Definition trim_chars (l : list ascii) : list ascii :=
  rev (trimStart_chars (rev (trimStart_chars l))).

Definition trim (s : string) : string :=
  JsString.of_chars (trim_chars (JsString.chars s)).

Fixpoint startsWith_chars (pat l : list ascii) : bool :=
  match pat, l with
  | [], _ => true
  | p :: pat', c :: l' => bool_decide (p = c) && startsWith_chars pat' l'
  | _ :: _, [] => false
  end.

(** [s.replace(/^pat/, empty)] for a literal [pat]: the match can only sit at
    the start. *)
Definition replace_leading (pat s : string) : string :=
  let p := JsString.chars pat in
  let l := JsString.chars s in
  if startsWith_chars p l then JsString.of_chars (drop (length p) l) else s.

(** [s.replace(/pat$/, empty)] for a literal [pat]: without the [m] flag the
    match can only sit at the very end. *)
Definition replace_trailing (pat s : string) : string :=
  let p := JsString.chars pat in
  let l := JsString.chars s in
  if startsWith_chars (rev p) (rev l)
  then JsString.of_chars (take (length l - length p) l) else s.

(** [jsonResponse.replace(/^```json/, empty).replace(/```$/, empty).trim()],
    [empty] the empty string. *)
Definition cleanedResponse (jsonResponse : string) : string :=
  trim (replace_trailing "```" (replace_leading "```json" jsonResponse)).

(** [fs.unlink(path)]: removes the file, rejects when there is none.  The
    log keeps the calls of the embedder only. *)
Definition fs_unlink (path : string) : Js unit :=
  fun w =>
    match files w !! path with
    | Some _ => (Normal tt, mkWorld (delete path (files w)) (log w))
    | None => (Throw (ENOENT "unlink" path), w)
    end.

(** [try { m } finally { fin }] *)
Definition try_finally {A} (m : Js A) (fin : Js unit) : Js A :=
  fun w =>
    match m w with
    | (r, w1) =>
      match fin w1 with
      | (Normal _, w2) => (r, w2)
      | (Throw e, w2) => (Throw e, w2)
      end
    end.

(** What [res.status(code).json(body)] sends. *)
Record Response := mkResponse {
  statusCode : Z;
  body : JsVal
}.

(** The strings of an array of strings. *)
Fixpoint as_strings (items : list JsVal) : option (list string) :=
  match items with
  | [] => Some []
  | VStr s :: items' =>
    match as_strings items' with
    | Some l => Some (s :: l)
    | None => None
    end
  | _ :: _ => None
  end.

(** An object read as the JSDoc of [addImageMetadata] types [metadata]: a
    string [title], a string [description], an array of strings [keywords]. *)
Definition metadata_of (object : list (string * JsVal)) : option ImageMetadata :=
  match assoc "title" object, assoc "description" object, assoc "keywords" object with
  | Some (VStr t), Some (VStr d), Some (VArr ks) =>
    match as_strings ks with
    | Some l => Some (mkImageMetadata t d l)
    | None => None
    end
  | _, _, _ => None
  end.

(** A key written with digits only.  The keys that are array indices are
    among these; an object enumerates them before its other keys, whatever
    the order they were written in. *)
Definition isDigit (c : ascii) : bool :=
  let n := N_of_ascii c in ((48 <=? n) && (n <=? 57))%N.

Definition digits_only (k : string) : bool :=
  match JsString.chars k with
  | [] => false
  | c :: l => forallb isDigit (c :: l)
  end.

(** An entry of the parsed array: the object as parsed, with its keys in
    order, none twice and none written with digits only (so that the order
    of writing is the order of enumeration), and its reading as metadata.
    An object that does not read as metadata is no entry. *)
Record ParsedEntry := mkParsedEntry {
  entry_object : list (string * JsVal);
  entry_metadata : ImageMetadata;
  entry_conforms : metadata_of entry_object = Some entry_metadata;
  entry_keys : bool_decide (NoDup (entry_object.*1)) = true;
  entry_names : forallb (fun kv => negb (digits_only kv.1)) entry_object = true
}.

(** Property write [object.k = v], for a key not written with digits only:
    an own key keeps its place and takes the new value, a new key comes
    last. *)
Fixpoint set_field (k : string) (v : JsVal) (fields : list (string * JsVal))
    : list (string * JsVal) :=
  match fields with
  | [] => [(k, v)]
  | (k', v') :: fields' =>
    if bool_decide (k' = k) then (k, v) :: fields'
    else (k', v') :: set_field k v fields'
  end.

(** [{ ...target, ...source }], for a [target] written out before the
    spread: the keys of [source] are written in order. *)
Definition spread (target source : list (string * JsVal)) : list (string * JsVal) :=
  fold_left (fun object kv => set_field kv.1 kv.2 object) source target.

Section Caller.

Variable sharp_toFile :
  gmap string FileData -> string -> JsVal -> string ->
  option JsError * gmap string FileData.

(** The callback of [req.files.map]: [filePath] is [file.path], an index
    past the end of [metadataArray] reads [undefined].  The result is
    [{ path: outputImage.outputPath, ...metadata }]: the keys of the entry are
    copied over the object that holds [path]. *)
Definition processImage (filePath : string) (index : nat)
    (metadataArray : list ParsedEntry) : Js JsVal :=
  let metadata := metadataArray !! index in
  await outputImage <- addImageMetadata sharp_toFile (Some filePath)
                         (entry_metadata <$> metadata) ;;
  ret (VObj (spread [("path", VStr (outputPath outputImage))]
               (match metadata with
                | Some entry => entry_object entry
                | None => []
                end))).

(** The route from [metadataArray] on, for a request with one file: the
    [try] block from [Promise.all] to the reply, its [catch] and the
    [finally] block, whose own failure is only logged. *)
Definition processUpload (filePath : string) (metadataArray : list ParsedEntry)
    : Js Response :=
  try_finally
    (try_catch
       (await processed <- processImage filePath 0 metadataArray ;;
        ret (mkResponse 200 (VArr [processed])))
       (fun error => ret (mkResponse 500 (VObj [("error", VStr (err_message error))]))))
    (try_catch (fs_unlink filePath) (fun err => ret tt)).

End Caller.

(** ** Vocabulary of the further statements *)

(** A string of white space only. *)
Definition white (l : list ascii) : Prop := Forall (fun c => isWhiteSpace c = true) l.

(** The entry that reads as [sunset]. *)
Definition sunset_entry : ParsedEntry :=
  mkParsedEntry [("title", VStr "Sunset");
                 ("description", VStr "A beach at dusk");
                 ("keywords", VArr [VStr "beach"; VStr "sunset"])]
                sunset eq_refl eq_refl eq_refl.

(** An entry that reads as [sunset] and has a [path] key as well. *)
Definition renamed_entry : ParsedEntry :=
  mkParsedEntry [("title", VStr "Sunset");
                 ("path", VStr "evil");
                 ("description", VStr "A beach at dusk");
                 ("keywords", VArr [VStr "beach"; VStr "sunset"])]
                sunset eq_refl eq_refl eq_refl.

(** A character that is neither the separator nor a dot. *)
Definition plain_char (c : ascii) : Prop :=
  c <> Path.CHAR_FORWARD_SLASH /\ c <> Path.CHAR_DOT.

(** * Properties *)

(** ** Running [addImageMetadata] *)

Section Run.

Variable sharp_toFile :
  gmap string FileData -> string -> JsVal -> string ->
  option JsError * gmap string FileData.

Lemma switch_ext_supported ext imagePath out md :
  supported_ext ext = true ->
  switch_ext sharp_toFile ext imagePath out md
  = sharp_withMetadata_toFile sharp_toFile imagePath (options_of ext md) out.
Proof.
  unfold supported_ext, supported_extensions. intros H.
  apply bool_decide_eq_true_1 in H.
  repeat (apply elem_of_cons in H as [-> | H]; [reflexivity |]).
  by apply elem_of_nil in H.
Qed.

Lemma switch_ext_unsupported ext imagePath out md :
  supported_ext ext = false ->
  switch_ext sharp_toFile ext imagePath out md
  = throw (Error ("Unsupported image format: " +:+ ext)).
Proof.
  unfold supported_ext, supported_extensions. intros H.
  apply bool_decide_eq_false_1 in H.
  unfold switch_ext.
  repeat case_bool_decide; subst; simpl; try reflexivity;
    exfalso; apply H; set_solver.
Qed.

Lemma run_missing_input imagePath metadata w :
  imagePath = None \/ imagePath = Some "" \/ metadata = None ->
  addImageMetadata sharp_toFile imagePath metadata w
  = (Throw (Error (failure_prefix +:+ "Image path and metadata are required")), w).
Proof.
  intros H. destruct imagePath as [path|], metadata as [md|]; try reflexivity.
  destruct H as [H | [H | H]]; try discriminate. by injection H as ->.
Qed.

Lemma run_missing_file path md w :
  path <> "" -> files w !! path = None ->
  addImageMetadata sharp_toFile (Some path) (Some md) w
  = (Throw (Error (failure_prefix +:+ err_message (ENOENT "access" path))),
     mkWorld (files w) (log w ++ [EvAccess path])).
Proof.
  intros Hne Hnone.
  unfold addImageMetadata, try_catch, addImageMetadata_try.
  rewrite bool_decide_eq_false_2 by done.
  unfold bind, fs_access. rewrite Hnone. reflexivity.
Qed.

Lemma run_unsupported path md w :
  path <> "" -> is_Some (files w !! path) ->
  supported_ext (ext_of path) = false ->
  addImageMetadata sharp_toFile (Some path) (Some md) w
  = (Throw (Error (failure_prefix +:+ "Unsupported image format: " +:+ ext_of path)),
     mkWorld (files w) (log w ++ [EvAccess path])).
Proof.
  intros Hne [data Hsome] Hext.
  unfold addImageMetadata, try_catch, addImageMetadata_try.
  rewrite bool_decide_eq_false_2 by done.
  unfold bind, fs_access. rewrite Hsome.
  rewrite switch_ext_unsupported by done. reflexivity.
Qed.

Lemma run_supported path md w :
  path <> "" -> is_Some (files w !! path) ->
  supported_ext (ext_of path) = true ->
  addImageMetadata sharp_toFile (Some path) (Some md) w
  = let options := options_of (ext_of path) md in
    let out := outputPath_of path in
    let w' := mkWorld (sharp_toFile (files w) path options out).2
                      ((log w ++ [EvAccess path]) ++ [EvToFile path options out]) in
    match (sharp_toFile (files w) path options out).1 with
    | None => (Normal (mkEmbedResult "success" out "Metadata added successfully"), w')
    | Some inner => (Throw (Error (failure_prefix +:+ err_message inner)), w')
    end.
Proof.
  intros Hne [data Hsome] Hext.
  unfold addImageMetadata, try_catch, addImageMetadata_try.
  rewrite bool_decide_eq_false_2 by done.
  unfold bind, fs_access. rewrite Hsome.
  rewrite switch_ext_supported by done.
  unfold sharp_withMetadata_toFile. simpl.
  destruct (sharp_toFile _ _ _ _) as [[inner|] files']; reflexivity.
Qed.

End Run.

(** ** Paths: the output is never the source *)

Section PathFacts.
Import JsString Path.
Local Close Scope string_scope.

Lemma chars_of_chars l : chars (of_chars l) = l.
Proof. apply list_ascii_of_string_of_list_ascii. Qed.

Lemma chars_app (a b : string) : chars (a +:+ b) = chars a ++ chars b.
Proof. induction a as [|c a IH]; simpl; [reflexivity | by rewrite <- IH]. Qed.

Lemma len_app (a b : list ascii) : len (a ++ b) = len a + len b.
Proof. unfold len. rewrite length_app. lia. Qed.

Lemma len_cons (c : ascii) (a : list ascii) : len (c :: a) = len a + 1.
Proof. unfold len. simpl length. lia. Qed.

Lemma len_nonneg (a : list ascii) : 0 <= len a.
Proof. unfold len. lia. Qed.

Lemma slice_app_suffix (X g : list ascii) (e : Z) :
  0 <= e <= len (X ++ g) ->
  slice (X ++ g) (len X) e = take (Z.to_nat (e - len X)) g.
Proof.
  intros He. unfold slice, slice_index.
  pose proof (len_nonneg X). pose proof (len_nonneg g). rewrite len_app in *.
  destruct (Z.ltb_spec (len X) 0); [lia |].
  destruct (Z.ltb_spec e 0); [lia |].
  rewrite !Z.min_l by lia.
  replace (Z.to_nat (len X)) with (length X) by (unfold len; lia).
  by rewrite drop_app_length.
Qed.

Lemma not_slash c : c <> CHAR_FORWARD_SLASH -> isPosixPathSeparator c = false.
Proof. intros. unfold isPosixPathSeparator. by apply bool_decide_eq_false_2. Qed.

Lemma is_slash : isPosixPathSeparator CHAR_FORWARD_SLASH = true.
Proof. reflexivity. Qed.

Lemma rev_ends_dir X :
  ends_dir X -> rev X = [] \/ exists R, rev X = CHAR_FORWARD_SLASH :: R.
Proof.
  intros [-> | [X' ->]]; [by left | right].
  rewrite rev_app_distr. simpl. eauto.
Qed.

(** *** basename on the last component *)

Lemma basename_plain_loop_component (n : Z) (a R : list ascii) :
  forall i end_ ms,
    no_slash a ->
    (R = [] \/ exists R', R = CHAR_FORWARD_SLASH :: R') ->
    i = len R + len a - 1 ->
    (end_ = -1 /\ i = n - 1 /\ a <> []) \/ (end_ = n /\ ms = false /\ 0 <= n) ->
    basename_plain_loop (a ++ R) i 0 end_ ms = (len R, n).
Proof.
  induction a as [|c a IH]; intros i end_ ms Ha HR Hi Hst.
  - destruct Hst as [(_ & _ & ?) | (-> & -> & Hn)]; [done |].
    destruct HR as [-> | [R' ->]]; cbn [basename_plain_loop app]; [reflexivity |].
    rewrite is_slash. cbn [negb]. f_equal. change (len []) with 0 in Hi. lia.
  - apply Forall_cons in Ha as [Hc Ha].
    rewrite len_cons in Hi. cbn [basename_plain_loop app]. rewrite (not_slash c Hc).
    destruct Hst as [(-> & Hn & _) | (-> & -> & Hn)].
    + rewrite Z.eqb_refl. apply IH; [done | done | lia |]. right. split; [lia |]. split; [done |].
      pose proof (len_nonneg R). pose proof (len_nonneg a). lia.
    + destruct (Z.eqb_spec n (-1)); [lia |]. apply IH; [done | done | lia |]. by right.
Qed.

Lemma basename_suffix_loop_component (s : list ascii) (n : Z) (a R : list ascii) :
  forall i end_ ms extIdx fnse,
    no_slash a ->
    (R = [] \/ exists R', R = CHAR_FORWARD_SLASH :: R') ->
    i = len R + len a - 1 ->
    (fnse = -1 /\ i = n - 1 /\ a <> []) \/ (fnse = n /\ ms = false /\ 0 <= n) ->
    (0 <= extIdx /\ end_ = -1 /\ extIdx = i - (n - len s))
    \/ (extIdx < 0 /\ n - len s <= end_ <= n) ->
    exists e',
      basename_suffix_loop s (a ++ R) i 0 end_ ms extIdx fnse = (len R, e', n)
      /\ (e' = -1 \/ n - len s <= e' <= n).
Proof.
  induction a as [|c a IH]; intros i end_ ms extIdx fnse Ha HR Hi Hst Hinv.
  - destruct Hst as [(_ & _ & ?) | (-> & -> & Hn)]; [done |].
    exists end_. split; [| destruct Hinv as [(_ & -> & _) | (_ & ?)]; auto].
    destruct HR as [-> | [R' ->]]; cbn [basename_suffix_loop app]; [reflexivity |].
    rewrite is_slash. cbn [negb]. do 2 f_equal. change (len []) with 0 in Hi. lia.
  - apply Forall_cons in Ha as [Hc Ha].
    rewrite len_cons in Hi. cbn [basename_suffix_loop app]. rewrite (not_slash c Hc).
    pose proof (len_nonneg R) as HR0. pose proof (len_nonneg a) as Ha0.
    pose proof (len_nonneg s) as Hs0.
    assert (Hfirst : (if fnse =? -1 then (false, i + 1) else (ms, fnse)) = (false, n)).
    { destruct Hst as [(-> & Hn & _) | (-> & -> & Hn)].
      - rewrite Z.eqb_refl. f_equal. lia.
      - destruct (Z.eqb_spec n (-1)); [lia | reflexivity]. }
    rewrite Hfirst.
    assert (Hst' : (n = -1 /\ i - 1 = n - 1 /\ a <> []) \/ (n = n /\ false = false /\ 0 <= n)).
    { right. repeat split. destruct Hst as [(_ & Hn & _) | (_ & _ & Hn)]; lia. }
    rewrite Z.geb_leb.
    destruct (Z.leb_spec 0 extIdx) as [Hge | Hlt].
    + destruct Hinv as [(_ & -> & Hidx) | (? & _)]; [| lia].
      case_bool_decide.
      * destruct (Z.eqb_spec (extIdx - 1) (-1)).
        -- apply IH; [done | done | lia | done |]. right. lia.
        -- apply IH; [done | done | lia | done |]. left. lia.
      * apply IH; [done | done | lia | done |]. right.
        destruct Hst as [(_ & Hn & _) | (_ & _ & Hn)]; lia.
    + destruct Hinv as [(? & _) | (_ & Hend)]; [lia |].
      apply IH; [done | done | lia | done |]. right. lia.
Qed.

(** On a path whose last component is [g], with nothing after it,
    [basename] returns the first characters of [g], all of them but at most
    as many as the suffix has. *)
Lemma basename_of_component (X g s : list ascii) :
  ends_dir X -> no_slash g -> g <> [] ->
  exists k, basename_chars (X ++ g) (Some s) = take k g
            /\ (length g <= k + length s)%nat.
Proof.
  intros HX Hg Hne.
  pose proof (len_nonneg X) as HX0. pose proof (len_nonneg g) as Hg0.
  pose proof (len_nonneg s) as Hs0.
  assert (Hgpos : 0 < len g) by (unfold len; destruct g; [done | simpl length; lia]).
  assert (Hplain :
    basename_plain_loop (rev (X ++ g)) (len (X ++ g) - 1) 0 (-1) true
    = (len X, len (X ++ g))).
  { rewrite rev_app_distr.
    replace (len X) with (len (rev X)) by (unfold len; by rewrite length_rev).
    apply basename_plain_loop_component.
    - unfold no_slash. by apply Forall_rev.
    - by apply rev_ends_dir.
    - rewrite len_app. unfold len. rewrite !length_rev. lia.
    - left. repeat split. intros E. apply (f_equal (@rev ascii)) in E.
      rewrite rev_involutive in E. done. }
  assert (Hwhole : slice (X ++ g) (len X) (len (X ++ g)) = take (length g) g).
  { rewrite slice_app_suffix by (rewrite len_app; lia).
    f_equal. rewrite len_app. unfold len. lia. }
  assert (Hplain_res :
    (let '(start, end_) :=
       basename_plain_loop (rev (X ++ g)) (len (X ++ g) - 1) 0 (-1) true in
     if end_ =? -1 then [] else slice (X ++ g) start end_) = take (length g) g).
  { rewrite Hplain. destruct (Z.eqb_spec (len (X ++ g)) (-1)) as [E|_]; [| done].
    rewrite len_app in E. lia. }
  unfold basename_chars.
  destruct ((0 <? len s) && (len s <=? len (X ++ g))) eqn:Hcond.
  2: { exists (length g). split; [exact Hplain_res | lia]. }
  apply andb_prop in Hcond as [Hs1 Hs2].
  apply Z.ltb_lt in Hs1. apply Z.leb_le in Hs2.
  case_bool_decide as Heq.
  { exists 0%nat. split; [done |]. subst s. rewrite length_app. lia. }
  destruct (basename_suffix_loop_component s (len (X ++ g)) (rev g) (rev X)
              (len (X ++ g) - 1) (-1) true (len s - 1) (-1)) as (e' & Hloop & He').
  - unfold no_slash. by apply Forall_rev.
  - by apply rev_ends_dir.
  - rewrite len_app. unfold len. rewrite !length_rev. lia.
  - left. repeat split. intros E. apply (f_equal (@rev ascii)) in E.
    rewrite rev_involutive in E. done.
  - left. lia.
  - rewrite rev_app_distr, Hloop.
    replace (len (rev X)) with (len X) by (unfold len; by rewrite length_rev).
    set (end1 := if len X =? e' then len (X ++ g)
                 else if e' =? -1 then len (X ++ g) else e').
    assert (Hend1 : len (X ++ g) - len s <= end1 <= len (X ++ g)).
    { unfold end1. destruct (Z.eqb_spec (len X) e'); [lia |].
      destruct (Z.eqb_spec e' (-1)); lia. }
    exists (Z.to_nat (end1 - len X)). split.
    + apply slice_app_suffix. lia.
    + rewrite len_app in Hend1. unfold len in *. lia.
Qed.

(** *** normalize keeps the last component *)

Lemma normalizeString_loop_end path allow (l : list ascii) :
  forall i st,
    normalizeString_loop path allow l i st
    = let st' := norm_steps path allow l i st in
      if isPosixPathSeparator (ns_code st') then ns_res st'
      else ns_res (normalizeString_step path allow (i + len l) CHAR_FORWARD_SLASH st').
Proof.
  induction l as [|c l IH]; intros i st.
  - change (len []) with 0. by rewrite Z.add_0_r.
  - cbn [normalizeString_loop norm_steps]. rewrite IH, len_cons. cbv zeta.
    by replace (i + 1 + len l) with (i + (len l + 1)) by lia.
Qed.

Lemma norm_steps_app path allow (a b : list ascii) :
  forall i st,
    norm_steps path allow (a ++ b) i st
    = norm_steps path allow b (i + len a) (norm_steps path allow a i st).
Proof.
  induction a as [|c a IH]; intros i st.
  - change (len []) with 0. by rewrite Z.add_0_r.
  - cbn [app norm_steps]. rewrite IH, len_cons. f_equal. lia.
Qed.

Lemma step_separator path allow i st :
  let st' := normalizeString_step path allow i CHAR_FORWARD_SLASH st in
  ns_lastSlash st' = i /\ ns_dots st' = 0.
Proof.
  unfold normalizeString_step. rewrite is_slash.
  repeat case_match; split; reflexivity.
Qed.

Lemma step_other path allow i c st :
  c <> CHAR_FORWARD_SLASH ->
  let st' := normalizeString_step path allow i c st in
  ns_res st' = ns_res st /\ ns_lastSlash st' = ns_lastSlash st /\ ns_code st' = c
  /\ (c <> CHAR_DOT -> ns_dots st' = -1).
Proof.
  intros Hc. unfold normalizeString_step. rewrite (not_slash c Hc).
  unfold isDot. case_bool_decide; cbn [andb]; [case_match |]; repeat split; done.
Qed.

Lemma norm_steps_component path allow (a : list ascii) :
  forall i st,
    no_slash a ->
    let st' := norm_steps path allow a i st in
    ns_res st' = ns_res st /\ ns_lastSlash st' = ns_lastSlash st.
Proof.
  induction a as [|c a IH]; intros i st Ha; [done |].
  apply Forall_cons in Ha as [Hc Ha]. cbn [norm_steps].
  destruct (IH (i + 1) (normalizeString_step path allow i c st) Ha) as [-> ->].
  destruct (step_other path allow i c st Hc) as (-> & -> & _). done.
Qed.

Lemma norm_steps_dir path allow (P : list ascii) :
  ends_dir P ->
  let st' := norm_steps path allow P 0 norm_init in
  ns_lastSlash st' = len P - 1 /\ ns_dots st' = 0.
Proof.
  intros [-> | [P' ->]]; [done |].
  rewrite norm_steps_app. cbn [norm_steps].
  destruct (step_separator path allow (0 + len P') (norm_steps path allow P' 0 norm_init))
    as [-> ->].
  rewrite len_app. change (len [CHAR_FORWARD_SLASH]) with 1. split; [lia | done].
Qed.

Lemma norm_steps_last path allow (P f0 : list ascii) (c : ascii) :
  ends_dir P -> no_slash f0 -> c <> CHAR_FORWARD_SLASH -> c <> CHAR_DOT ->
  let st := norm_steps path allow (P ++ f0 ++ [c]) 0 norm_init in
  ns_lastSlash st = len P - 1 /\ ns_dots st = -1 /\ ns_code st = c.
Proof.
  intros HP Hf Hc Hd. cbv zeta.
  rewrite !norm_steps_app. cbn [norm_steps].
  set (stP := norm_steps path allow P 0 norm_init).
  set (stf := norm_steps path allow f0 (0 + len P) stP).
  destruct (step_other path allow (0 + len P + len f0) c stf Hc)
    as (_ & E1 & E2 & Hdots).
  rewrite E1, E2, (Hdots Hd). subst stf.
  destruct (norm_steps_component path allow f0 (0 + len P) stP Hf) as [_ E3].
  rewrite E3. subst stP.
  destruct (norm_steps_dir path allow P HP) as [E4 _]. rewrite E4. done.
Qed.

Lemma normalizeString_component allow (P f0 : list ascii) (c : ascii) :
  ends_dir P -> no_slash f0 -> c <> CHAR_FORWARD_SLASH -> c <> CHAR_DOT ->
  exists res,
    normalizeString (P ++ f0 ++ [c]) allow
    = if 0 <? len res then res ++ CHAR_FORWARD_SLASH :: f0 ++ [c] else f0 ++ [c].
Proof.
  intros HP Hf Hc Hd.
  unfold normalizeString.
  rewrite normalizeString_loop_end. cbv zeta.
  destruct (norm_steps_last (P ++ f0 ++ [c]) allow P f0 c HP Hf Hc Hd)
    as (HlastSlash & Hdots & Hcode).
  set (st := norm_steps (P ++ f0 ++ [c]) allow (P ++ f0 ++ [c]) 0 norm_init) in *.
  rewrite Hcode, (not_slash c Hc).
  exists (ns_res st).
  unfold normalizeString_step. rewrite is_slash, HlastSlash, Hdots.
  pose proof (len_nonneg P). pose proof (len_nonneg f0).
  assert (Hlen : len (P ++ f0 ++ [c]) = len P + len f0 + 1).
  { rewrite !len_app. change (len [c]) with 1. lia. }
  rewrite Z.add_0_l.
  destruct (Z.eqb_spec (len P - 1) (len (P ++ f0 ++ [c]) - 1)); [lia |].
  cbn [orb Z.eqb].
  replace (len P - 1 + 1) with (len P) by lia.
  assert (Hseg : slice (P ++ f0 ++ [c]) (len P) (len (P ++ f0 ++ [c])) = f0 ++ [c]).
  { rewrite slice_app_suffix by lia.
    rewrite take_ge; [done |]. rewrite Hlen, length_app. unfold len. simpl length. lia. }
  rewrite Hseg. cbn [ns_res]. reflexivity.
Qed.

Lemma charCodeAt_last (l : list ascii) (c : ascii) :
  charCodeAt (l ++ [c]) (len (l ++ [c]) - 1) = Some c.
Proof.
  unfold charCodeAt. rewrite len_app. change (len [c]) with 1.
  pose proof (len_nonneg l).
  destruct (Z.ltb_spec (len l + 1 - 1) 0); [lia |].
  replace (Z.to_nat (len l + 1 - 1)) with (length l) by (unfold len; lia).
  by rewrite list_lookup_middle.
Qed.

Lemma normalize_component (P f0 : list ascii) (c : ascii) :
  ends_dir P -> no_slash f0 -> c <> CHAR_FORWARD_SLASH -> c <> CHAR_DOT ->
  exists Y, ends_dir Y /\ normalize_chars (P ++ f0 ++ [c]) = Y ++ f0 ++ [c].
Proof.
  intros HP Hf Hc Hd.
  assert (Hlast : charCodeAt (P ++ f0 ++ [c]) (len (P ++ f0 ++ [c]) - 1) = Some c).
  { rewrite (app_assoc P f0 [c]). apply charCodeAt_last. }
  assert (Hnorm : forall allow, exists Y0,
             ends_dir Y0 /\ normalizeString (P ++ f0 ++ [c]) allow = Y0 ++ f0 ++ [c]).
  { intros allow.
    destruct (normalizeString_component allow P f0 c HP Hf Hc Hd) as [res ->].
    destruct (0 <? len res).
    - exists (res ++ [CHAR_FORWARD_SLASH]). split; [right; eauto |].
      by rewrite <- app_assoc.
    - exists []. split; [by left | done]. }
  unfold normalize_chars.
  destruct (P ++ f0 ++ [c]) as [|c0 rest] eqn:Hpath.
  { by destruct P, f0. }
  rewrite Hlast.
  rewrite bool_decide_eq_false_2 by (intros [= ->]; done).
  destruct (Hnorm (negb (isPosixPathSeparator c0))) as (Y0 & HY0 & ->).
  destruct (Y0 ++ f0 ++ [c]) as [|y rest'] eqn:Hres.
  { by destruct Y0, f0. }
  rewrite <- Hres.
  destruct (isPosixPathSeparator c0).
  - exists (CHAR_FORWARD_SLASH :: Y0). split; [| done].
    right. destruct HY0 as [-> | [Y' ->]]; [by exists [] | by exists (CHAR_FORWARD_SLASH :: Y')].
  - by exists Y0.
Qed.

Lemma join_component (d P1 f0 : list ascii) (c : ascii) :
  ends_dir P1 -> no_slash f0 -> c <> CHAR_FORWARD_SLASH -> c <> CHAR_DOT ->
  exists Y, ends_dir Y /\ join_chars [d; P1 ++ f0 ++ [c]] = Y ++ f0 ++ [c].
Proof.
  intros HP Hf Hc Hd.
  assert (Hpos : (0 <? len (P1 ++ f0 ++ [c])) = true).
  { apply Z.ltb_lt. rewrite !len_app. change (len [c]) with 1.
    pose proof (len_nonneg P1). pose proof (len_nonneg f0). lia. }
  unfold join_chars. cbn [join_loop]. rewrite Hpos.
  destruct (0 <? len d).
  - replace (d ++ CHAR_FORWARD_SLASH :: P1 ++ f0 ++ [c])
      with ((d ++ CHAR_FORWARD_SLASH :: P1) ++ f0 ++ [c])
      by (by rewrite <- app_assoc).
    apply normalize_component; try done.
    right. destruct HP as [-> | [P' ->]].
    + by exists d.
    + exists (d ++ CHAR_FORWARD_SLASH :: P'). by rewrite <- app_assoc.
  - by apply normalize_component.
Qed.

(** *** The last component of a path is determined *)

Lemma split_last_component (l : list ascii) :
  exists l1 l2, l = l1 ++ l2 /\ ends_dir l1 /\ no_slash l2.
Proof.
  induction l as [|x l IH] using rev_ind.
  - exists [], []. repeat split; [by left | constructor].
  - destruct (decide (x = CHAR_FORWARD_SLASH)) as [-> | Hx].
    + exists (l ++ [CHAR_FORWARD_SLASH]), []. rewrite app_nil_r.
      repeat split; [right; eauto | constructor].
    + destruct IH as (l1 & l2 & -> & H1 & H2).
      exists l1, (l2 ++ [x]). rewrite app_assoc. repeat split; [done |].
      apply Forall_app. split; [done | by constructor].
Qed.

Lemma no_slash_ends_dir (l1 l2 : list ascii) :
  ends_dir l1 -> no_slash (l1 ++ l2) -> l1 = [].
Proof.
  intros [-> | [l' ->]] H; [done |].
  apply Forall_app in H as [H _]. apply Forall_app in H as [_ H].
  by apply Forall_cons in H as [H _].
Qed.

(** *** The output path is never the source path *)

Lemma output_chars_differ (p s t : list ascii) (c : ascii) :
  no_slash t -> c <> CHAR_FORWARD_SLASH -> c <> CHAR_DOT ->
  (length s < length (t ++ [c]))%nat ->
  join_chars [dirname_chars p; basename_chars p (Some s) ++ t ++ [c]] <> p.
Proof.
  intros Ht Hc Hd Hlen Heq.
  destruct (split_last_component (basename_chars p (Some s)))
    as (b1 & b2 & Hbn & Hb1 & Hb2).
  assert (Hg : no_slash (b2 ++ t)) by (by apply Forall_app).
  destruct (join_component (dirname_chars p) b1 (b2 ++ t) c Hb1 Hg Hc Hd)
    as (Y & HY & Hjoin).
  replace (b1 ++ (b2 ++ t) ++ [c]) with (basename_chars p (Some s) ++ t ++ [c])
    in Hjoin by (rewrite Hbn, <- !app_assoc; done).
  rewrite Hjoin in Heq.
  destruct (basename_of_component Y ((b2 ++ t) ++ [c]) s HY) as (k & Hk & Hbound).
  { apply Forall_app. split; [done | by constructor]. }
  { by destruct (b2 ++ t). }
  rewrite Heq, Hbn in Hk.
  assert (Hb1nil : b1 = []).
  { apply (no_slash_ends_dir b1 b2 Hb1). rewrite Hk. apply Forall_take.
    apply Forall_app. split; [done | by constructor]. }
  subst b1. cbn [app] in Hk.
  apply (f_equal length) in Hk. rewrite length_take in Hk.
  rewrite !length_app in *. simpl length in *. lia.
Qed.

Lemma outputPath_differs (path ext : string) :
  supported_ext ext = true ->
  Path.join [Path.dirname path; Path.basename path ext +:+ "_with_metadata" +:+ ext]
  <> path.
Proof.
  intros Hext Heq. apply (f_equal chars) in Heq.
  unfold Path.join, Path.dirname, Path.basename in Heq.
  cbn [map] in Heq. rewrite !chars_of_chars, chars_app, !chars_of_chars in Heq.
  revert Heq.
  set (T := chars ("_with_metadata" +:+ ext)).
  assert (HT : T = removelast T ++ [List.last T zero]
               /\ no_slash (removelast T)
               /\ List.last T zero <> CHAR_FORWARD_SLASH
               /\ List.last T zero <> CHAR_DOT
               /\ (length (chars ext) < length (removelast T ++ [List.last T zero]))%nat).
  { unfold supported_ext, supported_extensions in Hext.
    apply bool_decide_eq_true_1 in Hext. subst T.
    repeat (apply elem_of_cons in Hext as [-> | Hext];
            [ split; [reflexivity |]; split; [repeat constructor; discriminate |];
              split; [discriminate |]; split; [discriminate | simpl; lia] |]).
    by apply elem_of_nil in Hext. }
  destruct HT as (HT & Ht & Hc & Hd & Hlen). rewrite HT.
  by apply output_chars_differ.
Qed.

End PathFacts.

(** ** Keyword strings *)

Lemma join_concat sep (l : list string) : JsString.join sep l = String.concat sep l.
Proof.
  induction l as [|x l IH]; [reflexivity |].
  destruct l as [|y l]; [reflexivity |].
  change (x +:+ sep +:+ JsString.join sep (y :: l) = x +:+ sep +:+ String.concat sep (y :: l)).
  by rewrite IH.
Qed.

(** C4. The JPEG and the TIFF handler join the keywords with ";" (EXIF
    XPKeywords, TIFF Keywords), the PNG and the WebP handler with ", " (text
    chunk Keywords, XMP Keywords), for every keyword list: the empty list
    gives the empty string and a single keyword gives that keyword, under
    either separator. *)
Theorem keyword_separators (md : ImageMetadata) :
  get_path ["exif"; "IFD0"; "XPKeywords"] (jpegOptions md)
    = Some (VStr (String.concat ";" (keywords md))) /\
  get_path ["tiff"; "Keywords"] (tiffOptions md)
    = Some (VStr (String.concat ";" (keywords md))) /\
  get_path ["png"; "text"; "Keywords"] (pngOptions md)
    = Some (VStr (String.concat ", " (keywords md))) /\
  get_path ["webp"; "xmp"; "Keywords"] (webpOptions md)
    = Some (VStr (String.concat ", " (keywords md))) /\
  (forall sep, JsString.join sep [] = "") /\
  (forall sep k, JsString.join sep [k] = k) /\
  (forall sep k1 k2 ks,
     JsString.join sep (k1 :: k2 :: ks) = k1 +:+ sep +:+ JsString.join sep (k2 :: ks)).
Proof.
  repeat split; simpl; try reflexivity; by rewrite join_concat.
Qed.

(** ** What reaches the file *)

Lemma sharp_copy_ignores_key (k : string) : ignores_key k sharp_copy.
Proof. intros fs input options output. reflexivity. Qed.

(** C6, at the code. For the metadata {title: "Sunset", description:
    "A beach at dusk", keywords: ["beach", "sunset"]} and a source whose
    extension is .png, the handler asks for the text chunks Title=Sunset,
    Description=A beach at dusk and Keywords=beach, sunset under the option
    key [png], which the image library does not have.  With a library that
    ignores the key, the outcome of the call and the files after it are those
    of a call with no option at all, and they are the same for any other
    metadata: no text chunk of the metadata is in the file produced. *)
Theorem png_text_is_left_to_the_library sharp_toFile (path : string)
    (other : ImageMetadata) (w : World) :
  ignores_key "png" sharp_toFile ->
  path <> "" -> is_Some (files w !! path) -> ext_of path = ".png" ->
  let run := fun md => addImageMetadata sharp_toFile (Some path) (Some md) w in
  let bare := sharp_toFile (files w) path (VObj []) (outputPath_of path) in
  log (run sunset).2
  = log w ++ [EvAccess path;
              EvToFile path
                (VObj [("png", VObj [("text", VObj [("Title", VStr "Sunset");
                                                    ("Description", VStr "A beach at dusk");
                                                    ("Keywords", VStr "beach, sunset")])])])
                (outputPath_of path)] /\
  files (run sunset).2 = bare.2 /\
  (run sunset).1
  = match bare.1 with
    | None => Normal (mkEmbedResult "success" (outputPath_of path)
                                    "Metadata added successfully")
    | Some inner => Throw (Error ("Failed to add metadata: " +:+ err_message inner))
    end /\
  (run other).1 = (run sunset).1 /\
  files (run other).2 = files (run sunset).2.
Proof.
  intros Hignore Hne Hfile Hext. cbv beta zeta.
  assert (Hsup : supported_ext (ext_of path) = true) by (by rewrite Hext).
  assert (Hbare : forall md,
            sharp_toFile (files w) path (options_of (ext_of path) md) (outputPath_of path)
            = sharp_toFile (files w) path (VObj []) (outputPath_of path)).
  { intros md. rewrite Hext. by rewrite Hignore. }
  rewrite !run_supported by done. cbv zeta. rewrite !Hbare.
  split.
  - rewrite Hext.
    destruct (sharp_toFile _ _ _ _).1; cbn [snd log]; by rewrite <- app_assoc.
  - destruct (sharp_toFile _ _ _ _).1; by cbn [fst snd files].
Qed.

Lemma png_text_is_left_to_the_library_witness :
  let dawn := mkImageMetadata "Dawn" "A field at sunrise" ["field"] in
  let run := fun md => addImageMetadata sharp_copy (Some "x.png") (Some md) (one_file "x.png") in
  let bare := sharp_copy (files (one_file "x.png")) "x.png" (VObj []) (outputPath_of "x.png") in
  ignores_key "png" sharp_copy /\
  "x.png" <> "" /\ is_Some (files (one_file "x.png") !! "x.png") /\ ext_of "x.png" = ".png" /\
  log (run sunset).2
  = log (one_file "x.png")
    ++ [EvAccess "x.png";
        EvToFile "x.png"
          (VObj [("png", VObj [("text", VObj [("Title", VStr "Sunset");
                                              ("Description", VStr "A beach at dusk");
                                              ("Keywords", VStr "beach, sunset")])])])
          (outputPath_of "x.png")] /\
  files (run sunset).2 = bare.2 /\
  (run sunset).1
  = match bare.1 with
    | None => Normal (mkEmbedResult "success" (outputPath_of "x.png")
                                    "Metadata added successfully")
    | Some inner => Throw (Error ("Failed to add metadata: " +:+ err_message inner))
    end /\
  (run dawn).1 = (run sunset).1 /\
  files (run dawn).2 = files (run sunset).2.
Proof.
  cbv beta zeta.
  assert (H0 : ignores_key "png" sharp_copy) by apply sharp_copy_ignores_key.
  assert (H1 : "x.png" <> "") by discriminate.
  assert (H2 : is_Some (files (one_file "x.png") !! "x.png")) by (vm_compute; eauto).
  assert (H3 : ext_of "x.png" = ".png") by reflexivity.
  split; [exact H0 | split; [exact H1 | split; [exact H2 | split; [exact H3 |]]]].
  exact (png_text_is_left_to_the_library sharp_copy "x.png"
           (mkImageMetadata "Dawn" "A field at sunrise" ["field"])
           (one_file "x.png") H0 H1 H2 H3).
Defined.

(** C5, at the code. For a JPEG source (extension .jpg or .jpeg) the handler
    asks for the EXIF fields under [exif] and for ObjectName, Caption and
    Keywords under the option key [iptc], which the image library does not
    have.  With a library that ignores the key, the outcome of the call and
    the files after it are those of the call made with the EXIF block alone;
    two metadata values with the same EXIF block, such as the keywords
    ["a;b"] and ["a", "b"], leave the same files: the IPTC ObjectName,
    Caption and Keywords are in no file the call produces. *)
Theorem jpeg_iptc_is_left_to_the_library sharp_toFile (path : string)
    (md : ImageMetadata) (w : World) :
  ignores_key "iptc" sharp_toFile ->
  path <> "" -> is_Some (files w !! path) ->
  ext_of path = ".jpg" \/ ext_of path = ".jpeg" ->
  let run := fun md => addImageMetadata sharp_toFile (Some path) (Some md) w in
  let exif_only := sharp_toFile (files w) path (VObj [("exif", exifMetadata md)])
                     (outputPath_of path) in
  log (run md).2
  = log w ++ [EvAccess path;
              EvToFile path (VObj [("exif", exifMetadata md); ("iptc", iptcMetadata md)])
                (outputPath_of path)] /\
  files (run md).2 = exif_only.2 /\
  (run md).1
  = match exif_only.1 with
    | None => Normal (mkEmbedResult "success" (outputPath_of path)
                                    "Metadata added successfully")
    | Some inner => Throw (Error ("Failed to add metadata: " +:+ err_message inner))
    end /\
  (forall md', exifMetadata md' = exifMetadata md ->
               (run md').1 = (run md).1 /\ files (run md').2 = files (run md).2).
Proof.
  intros Hignore Hne Hfile Hext. cbv beta zeta.
  assert (Hsup : supported_ext (ext_of path) = true)
    by (destruct Hext as [-> | ->]; reflexivity).
  assert (Hexif : forall md0,
            sharp_toFile (files w) path (options_of (ext_of path) md0) (outputPath_of path)
            = sharp_toFile (files w) path (VObj [("exif", exifMetadata md0)])
                (outputPath_of path)).
  { intros md0.
    assert (Hopt : options_of (ext_of path) md0 = jpegOptions md0)
      by (destruct Hext as [-> | ->]; reflexivity).
    rewrite Hopt. by rewrite Hignore. }
  assert (Hopt : options_of (ext_of path) md = jpegOptions md)
    by (destruct Hext as [-> | ->]; reflexivity).
  split; [| split; [| split]].
  - rewrite run_supported by done. cbv zeta. rewrite Hopt.
    destruct (sharp_toFile _ _ _ _).1; cbn [snd log]; by rewrite <- app_assoc.
  - rewrite run_supported by done. cbv zeta. rewrite Hexif.
    destruct (sharp_toFile _ _ _ _).1; by cbn [snd files].
  - rewrite run_supported by done. cbv zeta. rewrite Hexif.
    destruct (sharp_toFile _ _ _ _).1; by cbn [fst].
  - intros md' Hsame. rewrite !run_supported by done. cbv zeta.
    rewrite !Hexif, Hsame.
    destruct (sharp_toFile _ _ _ _).1; by cbn [fst snd files].
Qed.

Lemma jpeg_iptc_is_left_to_the_library_witness :
  let joined := mkImageMetadata "Sunset" "A beach at dusk" ["beach;sunset"] in
  let run := fun md => addImageMetadata sharp_copy (Some "a/photo.jpeg") (Some md)
                         (one_file "a/photo.jpeg") in
  let exif_only := sharp_copy (files (one_file "a/photo.jpeg")) "a/photo.jpeg"
                     (VObj [("exif", exifMetadata joined)])
                     (outputPath_of "a/photo.jpeg") in
  ignores_key "iptc" sharp_copy /\
  "a/photo.jpeg" <> "" /\ is_Some (files (one_file "a/photo.jpeg") !! "a/photo.jpeg") /\
  (ext_of "a/photo.jpeg" = ".jpg" \/ ext_of "a/photo.jpeg" = ".jpeg") /\
  exifMetadata sunset = exifMetadata joined /\
  iptcMetadata sunset <> iptcMetadata joined /\
  log (run joined).2
  = log (one_file "a/photo.jpeg")
    ++ [EvAccess "a/photo.jpeg";
        EvToFile "a/photo.jpeg"
          (VObj [("exif", exifMetadata joined); ("iptc", iptcMetadata joined)])
          (outputPath_of "a/photo.jpeg")] /\
  files (run joined).2 = exif_only.2 /\
  (run joined).1
  = match exif_only.1 with
    | None => Normal (mkEmbedResult "success" (outputPath_of "a/photo.jpeg")
                                    "Metadata added successfully")
    | Some inner => Throw (Error ("Failed to add metadata: " +:+ err_message inner))
    end /\
  (forall md', exifMetadata md' = exifMetadata joined ->
               (run md').1 = (run joined).1 /\ files (run md').2 = files (run joined).2).
Proof.
  cbv beta zeta.
  assert (H0 : ignores_key "iptc" sharp_copy) by apply sharp_copy_ignores_key.
  assert (H1 : "a/photo.jpeg" <> "") by discriminate.
  assert (H2 : is_Some (files (one_file "a/photo.jpeg") !! "a/photo.jpeg"))
    by (vm_compute; eauto).
  assert (H3 : ext_of "a/photo.jpeg" = ".jpg" \/ ext_of "a/photo.jpeg" = ".jpeg")
    by (right; reflexivity).
  assert (H4 : exifMetadata sunset
               = exifMetadata (mkImageMetadata "Sunset" "A beach at dusk" ["beach;sunset"]))
    by reflexivity.
  assert (H5 : iptcMetadata sunset
               <> iptcMetadata (mkImageMetadata "Sunset" "A beach at dusk" ["beach;sunset"]))
    by discriminate.
  split; [exact H0 | split; [exact H1 | split; [exact H2 | split; [exact H3 |]]]].
  split; [exact H4 | split; [exact H5 |]].
  exact (jpeg_iptc_is_left_to_the_library sharp_copy "a/photo.jpeg"
           (mkImageMetadata "Sunset" "A beach at dusk" ["beach;sunset"])
           (one_file "a/photo.jpeg") H0 H1 H2 H3).
Defined.

(** ** Failures *)

(** C7, as the code has it. With a [null] or absent metadata argument the
    call fails with the missing-input error, a plain [Error] with the message
    "Failed to add metadata: Image path and metadata are required", whatever
    the path and its extension, and the world is as before: no existence
    check was made and no handler was called. *)
Theorem null_metadata_is_rejected_first sharp_toFile
    (imagePath : option string) (w : World) :
  addImageMetadata sharp_toFile imagePath None w
  = (Throw (Error "Failed to add metadata: Image path and metadata are required"), w).
Proof.
  rewrite run_missing_input by auto. reflexivity.
Qed.

(** C7 as stated fails: on [x.png], which exists, with [null] metadata, the
    call fails before the existence check, but the error raised is a plain
    [Error], and no [ValidationError]. *)
Lemma null_metadata_counterexample :
  exists e,
    addImageMetadata sharp_copy (Some "x.png") None (one_file "x.png")
    = (Throw e, one_file "x.png") /\
    err_name e = "Error" /\
    err_name e <> "ValidationError" /\
    err_message e = "Failed to add metadata: Image path and metadata are required".
Proof.
  eexists. split; [reflexivity |]. repeat split. discriminate.
Qed.

(** C9. Every error [addImageMetadata] raises is the one thrown inside the
    [try] block, rewrapped: its message is the fixed text
    "Failed to add metadata: " followed by the message of that error. *)
Theorem every_failure_is_rewrapped sharp_toFile
    (imagePath : option string) (metadata : option ImageMetadata)
    (w w' : World) (e : JsError) :
  addImageMetadata sharp_toFile imagePath metadata w = (Throw e, w') ->
  exists inner,
    addImageMetadata_try sharp_toFile imagePath metadata w = (Throw inner, w') /\
    e = Error ("Failed to add metadata: " +:+ err_message inner) /\
    String.prefix "Failed to add metadata: " (err_message e) = true.
Proof.
  unfold addImageMetadata, try_catch, throw.
  destruct (addImageMetadata_try _ _ _ _) as [[r | inner] w0]; intros H;
    [discriminate |].
  injection H as <- <-. exists inner.
  split; [reflexivity | split; [reflexivity |]].
  simpl. by destruct (err_message inner).
Qed.

Lemma every_failure_is_rewrapped_witness :
  addImageMetadata sharp_copy (Some "x.bmp") (Some sunset) (one_file "x.bmp")
  = (Throw (Error "Failed to add metadata: Unsupported image format: .bmp"),
     mkWorld (files (one_file "x.bmp")) [EvAccess "x.bmp"]) /\
  exists inner,
    addImageMetadata_try sharp_copy (Some "x.bmp") (Some sunset) (one_file "x.bmp")
    = (Throw inner, mkWorld (files (one_file "x.bmp")) [EvAccess "x.bmp"]) /\
    Error "Failed to add metadata: Unsupported image format: .bmp"
    = Error ("Failed to add metadata: " +:+ err_message inner) /\
    String.prefix "Failed to add metadata: "
      (err_message (Error "Failed to add metadata: Unsupported image format: .bmp")) = true.
Proof.
  assert (H : addImageMetadata sharp_copy (Some "x.bmp") (Some sunset) (one_file "x.bmp")
              = (Throw (Error "Failed to add metadata: Unsupported image format: .bmp"),
                 mkWorld (files (one_file "x.bmp")) [EvAccess "x.bmp"]))
    by reflexivity.
  split; [exact H |].
  exact (every_failure_is_rewrapped sharp_copy _ _ _ _ _ H).
Defined.

(** C10. The checks run in the order input presence, file existence,
    extension: on a file that does not exist and whose extension is not
    supported, the failure is the one of the existence check (and the handler
    switch is not reached), never the unsupported-format one; and without
    metadata the same call fails on the input check, before the existence
    check. *)
Theorem missing_file_wins_over_unsupported_extension sharp_toFile
    (path : string) (md : ImageMetadata) (w : World) :
  path <> "" -> files w !! path = None -> supported_ext (ext_of path) = false ->
  addImageMetadata sharp_toFile (Some path) (Some md) w
  = (Throw (Error ("Failed to add metadata: ENOENT: no such file or directory, access '"
                   +:+ path +:+ "'")),
     mkWorld (files w) (log w ++ [EvAccess path])) /\
  (forall w',
     addImageMetadata sharp_toFile (Some path) (Some md) w
     <> (Throw (Error ("Failed to add metadata: Unsupported image format: " +:+ ext_of path)),
         w')) /\
  addImageMetadata sharp_toFile (Some path) None w
  = (Throw (Error "Failed to add metadata: Image path and metadata are required"), w).
Proof.
  intros Hne Hnone Hext.
  rewrite run_missing_file by done.
  split; [reflexivity | split].
  - intros w' H. simpl in H. discriminate H.
  - rewrite run_missing_input by auto. reflexivity.
Qed.

Lemma missing_file_wins_over_unsupported_extension_witness :
  "x.bmp" <> "" /\ files no_file !! "x.bmp" = None /\
  supported_ext (ext_of "x.bmp") = false /\
  addImageMetadata sharp_copy (Some "x.bmp") (Some sunset) no_file
  = (Throw (Error ("Failed to add metadata: ENOENT: no such file or directory, access '"
                   +:+ "x.bmp" +:+ "'")),
     mkWorld (files no_file) (log no_file ++ [EvAccess "x.bmp"])).
Proof.
  assert (H1 : "x.bmp" <> "") by discriminate.
  assert (H2 : files no_file !! "x.bmp" = None) by reflexivity.
  assert (H3 : supported_ext (ext_of "x.bmp") = false) by reflexivity.
  split; [exact H1 | split; [exact H2 | split; [exact H3 |]]].
  exact (proj1 (missing_file_wins_over_unsupported_extension
                  sharp_copy "x.bmp" sunset no_file H1 H2 H3)).
Defined.

(** C3, as the code has it. For a source that exists and whose lower-cased
    extension is none of .jpg, .jpeg, .png, .webp, .tiff, the call fails with
    the unsupported-format error after the existence check, the only file
    operation made: the image library is not called and no file is
    written. *)
Theorem unsupported_extension_fails_after_access sharp_toFile
    (path : string) (md : ImageMetadata) (w : World) :
  path <> "" -> is_Some (files w !! path) -> supported_ext (ext_of path) = false ->
  addImageMetadata sharp_toFile (Some path) (Some md) w
  = (Throw (Error ("Failed to add metadata: Unsupported image format: " +:+ ext_of path)),
     mkWorld (files w) (log w ++ [EvAccess path])).
Proof.
  intros Hne Hfile Hext. by rewrite run_unsupported.
Qed.

Lemma unsupported_extension_fails_after_access_witness :
  "x.bmp" <> "" /\ is_Some (files (one_file "x.bmp") !! "x.bmp") /\
  supported_ext (ext_of "x.bmp") = false /\
  addImageMetadata sharp_copy (Some "x.bmp") (Some sunset) (one_file "x.bmp")
  = (Throw (Error ("Failed to add metadata: Unsupported image format: " +:+ ext_of "x.bmp")),
     mkWorld (files (one_file "x.bmp")) (log (one_file "x.bmp") ++ [EvAccess "x.bmp"])).
Proof.
  assert (H1 : "x.bmp" <> "") by discriminate.
  assert (H2 : is_Some (files (one_file "x.bmp") !! "x.bmp")) by (vm_compute; eauto).
  assert (H3 : supported_ext (ext_of "x.bmp") = false) by reflexivity.
  split; [exact H1 | split; [exact H2 | split; [exact H3 |]]].
  exact (unsupported_extension_fails_after_access
           sharp_copy "x.bmp" sunset (one_file "x.bmp") H1 H2 H3).
Defined.

(** C3 as stated fails: on [x.bmp], which does not exist, the extension is
    not supported, yet a file operation was made (the existence check) and
    the failure is the one of that check; and when [x.bmp] exists, the
    unsupported-format failure still comes after the existence check. *)
Lemma unsupported_extension_counterexample :
  supported_ext (ext_of "x.bmp") = false /\
  addImageMetadata sharp_copy (Some "x.bmp") (Some sunset) no_file
  = (Throw (Error "Failed to add metadata: ENOENT: no such file or directory, access 'x.bmp'"),
     mkWorld ∅ [EvAccess "x.bmp"]) /\
  (forall w',
     addImageMetadata sharp_copy (Some "x.bmp") (Some sunset) no_file
     <> (Throw (Error "Failed to add metadata: Unsupported image format: .bmp"), w')) /\
  log (addImageMetadata sharp_copy (Some "x.bmp") (Some sunset) (one_file "x.bmp")).2
  = [EvAccess "x.bmp"].
Proof.
  repeat split. intros w' H. discriminate H.
Qed.

(** C1, as the code has it. Every failure of [addImageMetadata] is raised as
    a plain [Error], one class for all, whose message is
    "Failed to add metadata: " followed by the message of its cause: the fixed
    text "Image path and metadata are required" when the path or the metadata
    is missing, the message of the rejected existence check when the file does
    not exist, "Unsupported image format: " and the lower-cased extension when
    the extension is not supported, and the message of the image library when
    the handler fails. *)
Theorem failures_are_plain_errors sharp_toFile
    (imagePath : option string) (metadata : option ImageMetadata)
    (w w' : World) (e : JsError) :
  addImageMetadata sharp_toFile imagePath metadata w = (Throw e, w') ->
  err_name e = "Error" /\
  exists cause,
    err_message e = "Failed to add metadata: " +:+ cause /\
    (((imagePath = None \/ imagePath = Some "" \/ metadata = None) /\
      cause = "Image path and metadata are required")
     \/
     exists path md,
       imagePath = Some path /\ metadata = Some md /\ path <> "" /\
       ((files w !! path = None /\
         cause = "ENOENT: no such file or directory, access '" +:+ path +:+ "'")
        \/
        (is_Some (files w !! path) /\ supported_ext (ext_of path) = false /\
         cause = "Unsupported image format: " +:+ ext_of path)
        \/
        (is_Some (files w !! path) /\ supported_ext (ext_of path) = true /\
         exists inner,
           (sharp_toFile (files w) path (options_of (ext_of path) md)
                         (outputPath_of path)).1 = Some inner /\
           cause = err_message inner))).
Proof.
  intros H.
  destruct imagePath as [path|]; [destruct metadata as [md|] |];
    [destruct (decide (path = "")) as [-> | Hne] | |].
  2: destruct (files w !! path) as [data|] eqn:Hfile;
       [destruct (supported_ext (ext_of path)) eqn:Hext |].
  - rewrite run_missing_input in H by auto. injection H as <- <-.
    split; [reflexivity |]. eexists. split; [reflexivity |]. left. auto.
  - rewrite run_supported in H by eauto. cbv zeta in H.
    destruct (sharp_toFile _ _ _ _).1 as [inner|] eqn:Hsharp; [| discriminate].
    injection H as <- <-.
    split; [reflexivity |]. eexists. split; [reflexivity |]. right.
    exists path, md. repeat (split; [done |]). right. right. eauto.
  - rewrite run_unsupported in H by eauto. injection H as <- <-.
    split; [reflexivity |]. eexists. split; [reflexivity |]. right.
    exists path, md. repeat (split; [done |]). right. left. eauto.
  - rewrite run_missing_file in H by eauto. injection H as <- <-.
    split; [reflexivity |]. eexists. split; [reflexivity |]. right.
    exists path, md. repeat (split; [done |]). left. eauto.
  - rewrite run_missing_input in H by auto. injection H as <- <-.
    split; [reflexivity |]. eexists. split; [reflexivity |]. left. auto.
  - rewrite run_missing_input in H by auto. injection H as <- <-.
    split; [reflexivity |]. eexists. split; [reflexivity |]. left. auto.
Qed.

Lemma failures_are_plain_errors_witness :
  addImageMetadata (sharp_rejecting (Error "Input file contains unsupported image format"))
    (Some "x.png") (Some sunset) (one_file "x.png")
  = (Throw (Error "Failed to add metadata: Input file contains unsupported image format"),
     mkWorld (files (one_file "x.png"))
       [EvAccess "x.png"; EvToFile "x.png" (pngOptions sunset) "x_with_metadata.png"]) /\
  err_name (Error "Failed to add metadata: Input file contains unsupported image format")
  = "Error".
Proof.
  assert (H : addImageMetadata
                (sharp_rejecting (Error "Input file contains unsupported image format"))
                (Some "x.png") (Some sunset) (one_file "x.png")
              = (Throw (Error "Failed to add metadata: Input file contains unsupported image format"),
                 mkWorld (files (one_file "x.png"))
                   [EvAccess "x.png";
                    EvToFile "x.png" (pngOptions sunset) "x_with_metadata.png"]))
    by reflexivity.
  split; [exact H |].
  exact (proj1 (failures_are_plain_errors _ _ _ _ _ _ H)).
Defined.

(** C1 as stated fails: a missing-input failure, a missing-file failure, an
    unsupported-format failure and a handler failure are all raised as the one
    class [Error] (none as ValidationError, NotFoundError,
    UnsupportedFormatError or EmbeddingError), and all four messages start
    with the same phrase; what follows the phrase in a handler failure is
    whatever the image library reports, so that a library error with the text
    of the unsupported-format message raises the very error object of an
    unsupported extension. *)
Lemma error_classes_counterexample :
  let library_error := Error "Input file contains unsupported image format" in
  let validation :=
    (addImageMetadata sharp_copy (Some "x.png") None (one_file "x.png")).1 in
  let missing :=
    (addImageMetadata sharp_copy (Some "x.png") (Some sunset) no_file).1 in
  let unsupported :=
    (addImageMetadata sharp_copy (Some "x.bmp") (Some sunset) (one_file "x.bmp")).1 in
  let embedding :=
    (addImageMetadata (sharp_rejecting library_error)
       (Some "x.png") (Some sunset) (one_file "x.png")).1 in
  exists e1 e2 e3 e4,
    validation = Throw e1 /\ missing = Throw e2 /\
    unsupported = Throw e3 /\ embedding = Throw e4 /\
    err_name e1 = "Error" /\ err_name e2 = "Error" /\
    err_name e3 = "Error" /\ err_name e4 = "Error" /\
    err_name e1 <> "ValidationError" /\ err_name e2 <> "NotFoundError" /\
    err_name e3 <> "UnsupportedFormatError" /\ err_name e4 <> "EmbeddingError" /\
    String.prefix "Failed to add metadata: " (err_message e1) = true /\
    String.prefix "Failed to add metadata: " (err_message e2) = true /\
    String.prefix "Failed to add metadata: " (err_message e3) = true /\
    String.prefix "Failed to add metadata: " (err_message e4) = true /\
    (addImageMetadata (sharp_rejecting (Error "Unsupported image format: .bmp"))
       (Some "x.png") (Some sunset) (one_file "x.png")).1 = unsupported.
Proof.
  cbv zeta. do 4 eexists.
  repeat (split; [reflexivity || discriminate |]). reflexivity.
Qed.

(** ** The output path *)

(** C2, at a source whose extension has capitals: the lower-cased extension
    is what [path.basename] is asked to strip, so nothing is stripped, and
    the output of [uploads/photo.JPG] is [uploads/photo.JPG_with_metadata.jpg]:
    neither the base name [photo] nor the extension [.JPG] of the source.
    With [uploads/photo.jpg] the output is [uploads/photo_with_metadata.jpg]. *)
Theorem output_path_of_upper_case_extension :
  Path.extname "uploads/photo.JPG" = ".JPG" /\
  ext_of "uploads/photo.JPG" = ".jpg" /\
  Path.basename "uploads/photo.JPG" (ext_of "uploads/photo.JPG") = "photo.JPG" /\
  outputPath_of "uploads/photo.JPG" = "uploads/photo.JPG_with_metadata.jpg" /\
  Path.extname (outputPath_of "uploads/photo.JPG") = ".jpg" /\
  (addImageMetadata sharp_copy (Some "uploads/photo.JPG") (Some sunset)
     (one_file "uploads/photo.JPG")).1
  = Normal (mkEmbedResult "success" "uploads/photo.JPG_with_metadata.jpg"
                          "Metadata added successfully") /\
  outputPath_of "uploads/photo.jpg" = "uploads/photo_with_metadata.jpg".
Proof.
  repeat split; reflexivity.
Qed.

(** ** The source file *)

Lemma sharp_copy_writes_only_output : writes_only_output sharp_copy.
Proof.
  intros fs input options output q Hq. unfold sharp_copy.
  destruct (fs !! input); simpl; [by rewrite lookup_insert_ne | done].
Qed.

(** C8. Whether the call succeeds or fails, the file at the source path is
    as it was, and so is every file but the one at the output path; the calls
    made are the existence check of the source and, at most, one call of the
    image library that reads the source and writes the output path, which is
    not the source path.  The image library is taken to write at no path but
    its output. *)
Theorem source_file_is_never_written sharp_toFile
    (imagePath : option string) (metadata : option ImageMetadata) (w : World) :
  writes_only_output sharp_toFile ->
  let w' := (addImageMetadata sharp_toFile imagePath metadata w).2 in
  (imagePath = None -> files w' = files w) /\
  (forall path, imagePath = Some path ->
     files w' !! path = files w !! path /\
     (forall q, q <> outputPath_of path -> files w' !! q = files w !! q) /\
     exists calls,
       log w' = log w ++ calls /\
       forall call, call ∈ calls ->
         call = EvAccess path \/
         exists options,
           call = EvToFile path options (outputPath_of path) /\
           outputPath_of path <> path).
Proof.
  intros Hframe w'. subst w'. unfold writes_only_output in Hframe. split.
  { intros ->. by rewrite run_missing_input by auto. }
  intros path ->.
  assert (Hcases : is_Some (files w !! path) \/ files w !! path = None)
    by (destruct (files w !! path); eauto).
  destruct metadata as [md|]; [destruct (decide (path = "")) as [-> | Hne] |].
  2: destruct Hcases as [Hfile | Hfile];
       [destruct (supported_ext (ext_of path)) eqn:Hext |].
  - rewrite run_missing_input by auto. cbn [snd].
    repeat split. exists []. split; [by rewrite app_nil_r | set_solver].
  - assert (Hdiff : outputPath_of path <> path) by (by apply outputPath_differs).
    rewrite run_supported by eauto. cbv zeta.
    set (options := options_of (ext_of path) md).
    set (sharp_result := sharp_toFile (files w) path options (outputPath_of path)).
    assert (Hworld :
      (match sharp_result.1 with
       | None => (Normal (mkEmbedResult "success" (outputPath_of path)
                                        "Metadata added successfully"),
                  mkWorld sharp_result.2
                    ((log w ++ [EvAccess path])
                     ++ [EvToFile path options (outputPath_of path)]))
       | Some inner => (Throw (Error (failure_prefix +:+ err_message inner)),
                        mkWorld sharp_result.2
                          ((log w ++ [EvAccess path])
                           ++ [EvToFile path options (outputPath_of path)]))
       end).2
      = mkWorld sharp_result.2
          ((log w ++ [EvAccess path]) ++ [EvToFile path options (outputPath_of path)]))
      by (destruct sharp_result.1; reflexivity).
    rewrite Hworld. cbn [files log]. subst sharp_result. split; [| split].
    + apply Hframe. congruence.
    + intros q Hq. by apply Hframe.
    + exists [EvAccess path; EvToFile path options (outputPath_of path)].
      split; [by rewrite <- app_assoc |].
      intros call Hcall.
      apply elem_of_cons in Hcall as [-> | Hcall]; [by left | right].
      apply list_elem_of_singleton in Hcall as ->. eauto.
  - rewrite run_unsupported by eauto. cbn [snd files log].
    repeat split. exists [EvAccess path]. split; [done |].
    intros call Hcall. apply list_elem_of_singleton in Hcall as ->. by left.
  - rewrite run_missing_file by eauto. cbn [snd files log].
    repeat split. exists [EvAccess path]. split; [done |].
    intros call Hcall. apply list_elem_of_singleton in Hcall as ->. by left.
  - rewrite run_missing_input by auto. cbn [snd].
    repeat split. exists []. split; [by rewrite app_nil_r | set_solver].
Qed.

Lemma source_file_is_never_written_witness :
  writes_only_output sharp_copy /\
  let w := one_file "x.png" in
  let w' := (addImageMetadata sharp_copy (Some "x.png") (Some sunset) w).2 in
  (Some "x.png" = None -> files w' = files w) /\
  (forall path, Some "x.png" = Some path ->
     files w' !! path = files w !! path /\
     (forall q, q <> outputPath_of path -> files w' !! q = files w !! q) /\
     exists calls,
       log w' = log w ++ calls /\
       forall call, call ∈ calls ->
         call = EvAccess path \/
         exists options,
           call = EvToFile path options (outputPath_of path) /\
           outputPath_of path <> path).
Proof.
  split; [exact sharp_copy_writes_only_output |].
  exact (source_file_is_never_written sharp_copy (Some "x.png") (Some sunset)
           (one_file "x.png") sharp_copy_writes_only_output).
Defined.

(** * Further properties *)

(** ** When the embedder succeeds, and what it calls *)

Lemma run_cases (imagePath : option string)
    (metadata : option ImageMetadata) (w : World) :
  (imagePath = None \/ imagePath = Some "" \/ metadata = None) \/
  exists path md,
    imagePath = Some path /\ metadata = Some md /\ path <> "" /\
    (files w !! path = None \/
     (is_Some (files w !! path) /\ supported_ext (ext_of path) = false) \/
     (is_Some (files w !! path) /\ supported_ext (ext_of path) = true)).
Proof.
  destruct imagePath as [path|]; [| by left; left].
  destruct metadata as [md|]; [| by left; right; right].
  destruct (decide (path = "")) as [-> | Hne]; [by left; right; left |].
  right. exists path, md. repeat (split; [done |]).
  destruct (files w !! path) eqn:Hfile; [| by left].
  right. destruct (supported_ext (ext_of path)); [right | left]; eauto.
Qed.

Lemma run_success_inv sharp_toFile
    (imagePath : option string) (metadata : option ImageMetadata)
    (w w' : World) (r : EmbedResult) :
  addImageMetadata sharp_toFile imagePath metadata w = (Normal r, w') ->
  exists path md,
    imagePath = Some path /\ metadata = Some md /\ path <> "" /\
    is_Some (files w !! path) /\ supported_ext (ext_of path) = true /\
    sharp_toFile (files w) path (options_of (ext_of path) md) (outputPath_of path)
    = (None, files w') /\
    r = mkEmbedResult "success" (outputPath_of path) "Metadata added successfully" /\
    log w' = log w ++ [EvAccess path;
                       EvToFile path (options_of (ext_of path) md) (outputPath_of path)].
Proof.
  intros H.
  destruct (run_cases imagePath metadata w)
    as [Hin | (path & md & -> & -> & Hne & [Hfile | [[Hfile Hext] | [Hfile Hext]]])].
  - rewrite run_missing_input in H by done. discriminate.
  - rewrite run_missing_file in H by done. discriminate.
  - rewrite run_unsupported in H by done. discriminate.
  - rewrite run_supported in H by done. cbv zeta in H.
    exists path, md. repeat (split; [done |]).
    destruct (sharp_toFile _ _ _ _) as [[inner|] fs'] eqn:Hsharp;
      cbn [fst snd] in H; [discriminate |].
    injection H as <- <-. cbn [files log].
    split; [done | split; [done | by rewrite <- app_assoc]].
Qed.

(** X1. [addImageMetadata] succeeds exactly when the path is a non-empty
    string, the metadata is present, the file exists, the lower-cased
    extension is one of the five supported ones and the image library does
    not reject; the result is then the record with status "success", the
    output path derived from the source path and the fixed message, and the
    calls made are the existence check followed by one call of the library. *)
Theorem embed_succeeds_iff sharp_toFile
    (imagePath : option string) (metadata : option ImageMetadata)
    (w w' : World) (r : EmbedResult) :
  addImageMetadata sharp_toFile imagePath metadata w = (Normal r, w') <->
  exists path md,
    imagePath = Some path /\ metadata = Some md /\ path <> "" /\
    is_Some (files w !! path) /\ supported_ext (ext_of path) = true /\
    sharp_toFile (files w) path (options_of (ext_of path) md) (outputPath_of path)
    = (None, files w') /\
    r = mkEmbedResult "success" (outputPath_of path) "Metadata added successfully" /\
    log w' = log w ++ [EvAccess path;
                       EvToFile path (options_of (ext_of path) md) (outputPath_of path)].
Proof.
  split; [apply run_success_inv |].
  intros (path & md & -> & -> & Hne & Hfile & Hext & Hsharp & -> & Hlog).
  rewrite run_supported by done. cbv zeta. rewrite Hsharp. cbn [fst snd].
  f_equal. destruct w' as [fs' lg']. cbn [files log] in *.
  rewrite Hlog. by rewrite <- app_assoc.
Qed.

(** X2. A call makes no library call at all, or one existence check, or one
    existence check followed by exactly one call of the image library on the
    source and the output path: nothing is retried.  Unless the image library
    was called the files are as before; after it was called they are as the
    library left them, also when it rejected (nothing is cleaned up). *)
Theorem embed_calls_the_library_at_most_once sharp_toFile
    (imagePath : option string) (metadata : option ImageMetadata) (w : World) :
  let w' := (addImageMetadata sharp_toFile imagePath metadata w).2 in
  (log w' = log w /\ files w' = files w) \/
  exists path,
    imagePath = Some path /\
    ((log w' = log w ++ [EvAccess path] /\ files w' = files w) \/
     exists md,
       metadata = Some md /\
       log w' = log w ++ [EvAccess path;
                          EvToFile path (options_of (ext_of path) md) (outputPath_of path)] /\
       files w' = (sharp_toFile (files w) path (options_of (ext_of path) md)
                                (outputPath_of path)).2).
Proof.
  cbv zeta.
  destruct (run_cases imagePath metadata w)
    as [Hin | (path & md & -> & -> & Hne & [Hfile | [[Hfile Hext] | [Hfile Hext]]])].
  - rewrite run_missing_input by done. by left.
  - rewrite run_missing_file by done. right. exists path. split; [done |]. by left.
  - rewrite run_unsupported by done. right. exists path. split; [done |]. by left.
  - rewrite run_supported by done. cbv zeta. right. exists path. split; [done |].
    right. exists md. split; [done |].
    destruct (sharp_toFile _ _ _ _).1; cbn [snd files log];
      (split; [by rewrite <- app_assoc | done]).
Qed.

(** X3. An empty or absent image path fails with the missing-input error,
    whatever the metadata, and the world is as before: no existence check is
    made for the empty path. *)
Theorem empty_path_is_rejected_first sharp_toFile
    (metadata : option ImageMetadata) (w : World) :
  addImageMetadata sharp_toFile (Some "") metadata w
  = (Throw (Error "Failed to add metadata: Image path and metadata are required"), w) /\
  addImageMetadata sharp_toFile None metadata w
  = (Throw (Error "Failed to add metadata: Image path and metadata are required"), w).
Proof.
  split; rewrite run_missing_input by auto; reflexivity.
Qed.

(** X4. The output path of a successful result is the one derived from the
    source path, and it is never the source path. *)
Theorem output_is_never_the_source sharp_toFile
    (imagePath : option string) (metadata : option ImageMetadata)
    (w w' : World) (r : EmbedResult) :
  addImageMetadata sharp_toFile imagePath metadata w = (Normal r, w') ->
  exists path,
    imagePath = Some path /\ outputPath r = outputPath_of path /\ outputPath r <> path.
Proof.
  intros H.
  apply run_success_inv in H as (path & md & -> & _ & _ & _ & Hext & _ & -> & _).
  exists path. split; [done |]. split; [done |]. cbn [outputPath].
  by apply outputPath_differs.
Qed.

(** ** The other formats *)

Lemma run_supported_log sharp_toFile (path : string) (md : ImageMetadata) (w : World) :
  path <> "" -> is_Some (files w !! path) -> supported_ext (ext_of path) = true ->
  log (addImageMetadata sharp_toFile (Some path) (Some md) w).2
  = log w ++ [EvAccess path;
              EvToFile path (options_of (ext_of path) md) (outputPath_of path)].
Proof.
  intros Hne Hfile Hext. rewrite run_supported by done. cbv zeta.
  destruct (sharp_toFile _ _ _ _).1; cbn [snd log]; by rewrite <- app_assoc.
Qed.

(** X7. For a source whose lower-cased extension is .tiff, the image library
    is handed, under [tiff], the description as ImageDescription, the title as
    DocumentName and the keywords joined with ";" as Keywords, and neither an
    [exif] nor an [iptc] block. *)
Theorem tiff_slots sharp_toFile (path : string) (md : ImageMetadata) (w : World) :
  path <> "" -> is_Some (files w !! path) -> ext_of path = ".tiff" ->
  exists options,
    log (addImageMetadata sharp_toFile (Some path) (Some md) w).2
      = log w ++ [EvAccess path; EvToFile path options (outputPath_of path)] /\
    get "tiff" options
      = Some (VObj [("ImageDescription", VStr (description md));
                    ("DocumentName", VStr (title md));
                    ("Keywords", VStr (String.concat ";" (keywords md)))]) /\
    get "exif" options = None /\ get "iptc" options = None.
Proof.
  intros Hne Hfile Hext. exists (tiffOptions md).
  rewrite run_supported_log; [| done | done | by rewrite Hext]. rewrite Hext.
  split; [reflexivity |].
  unfold tiffOptions, tiffMetadata. rewrite join_concat. repeat split.
Qed.

(** X8. For a source whose lower-cased extension is .webp, the image library
    is handed, under [webp.xmp], the title as Title, the description as
    Description and the keywords joined with ", " as Keywords. *)
Theorem webp_slots sharp_toFile (path : string) (md : ImageMetadata) (w : World) :
  path <> "" -> is_Some (files w !! path) -> ext_of path = ".webp" ->
  exists options,
    log (addImageMetadata sharp_toFile (Some path) (Some md) w).2
      = log w ++ [EvAccess path; EvToFile path options (outputPath_of path)] /\
    get_path ["webp"; "xmp"] options
      = Some (VObj [("Title", VStr (title md));
                    ("Description", VStr (description md));
                    ("Keywords", VStr (String.concat ", " (keywords md)))]).
Proof.
  intros Hne Hfile Hext. exists (webpOptions md).
  rewrite run_supported_log; [| done | done | by rewrite Hext]. rewrite Hext.
  split; [reflexivity |].
  unfold webpOptions, webpMetadata. by rewrite join_concat.
Qed.

(** X9. For a source whose lower-cased extension is .png, and any metadata,
    the image library is handed, under [png.text], the title as Title, the
    description as Description and the keywords joined with ", " as
    Keywords. *)
Theorem png_slots sharp_toFile (path : string) (md : ImageMetadata) (w : World) :
  path <> "" -> is_Some (files w !! path) -> ext_of path = ".png" ->
  exists options,
    log (addImageMetadata sharp_toFile (Some path) (Some md) w).2
      = log w ++ [EvAccess path; EvToFile path options (outputPath_of path)] /\
    get_path ["png"; "text"] options
      = Some (VObj [("Title", VStr (title md));
                    ("Description", VStr (description md));
                    ("Keywords", VStr (String.concat ", " (keywords md)))]).
Proof.
  intros Hne Hfile Hext. exists (pngOptions md).
  rewrite run_supported_log; [| done | done | by rewrite Hext]. rewrite Hext.
  split; [reflexivity |].
  unfold pngOptions, pngMetadata. by rewrite join_concat.
Qed.

(** X18. For a JPEG source (extension .jpg or .jpeg), the options handed to
    the image library hold the title in the EXIF XPTitle field and in the IPTC
    ObjectName, the description in the EXIF ImageDescription and in the IPTC
    Caption, the keywords as a list in the IPTC Keywords and joined with ";"
    in the EXIF XPKeywords: reading these slots gives back the title, the
    description and the keywords as they came in. *)
Theorem jpeg_slots sharp_toFile (path : string) (md : ImageMetadata) (w : World) :
  path <> "" -> is_Some (files w !! path) ->
  ext_of path = ".jpg" \/ ext_of path = ".jpeg" ->
  exists options,
    log (addImageMetadata sharp_toFile (Some path) (Some md) w).2
      = log w ++ [EvAccess path; EvToFile path options (outputPath_of path)] /\
    get_path ["exif"; "IFD0"; "XPTitle"] options = Some (VStr (title md)) /\
    get_path ["iptc"; "ObjectName"] options = Some (VStr (title md)) /\
    get_path ["exif"; "IFD0"; "ImageDescription"] options = Some (VStr (description md)) /\
    get_path ["iptc"; "Caption"] options = Some (VStr (description md)) /\
    get_path ["iptc"; "Keywords"] options = Some (VArr (map VStr (keywords md))) /\
    get_path ["exif"; "IFD0"; "XPKeywords"] options
      = Some (VStr (String.concat ";" (keywords md))).
Proof.
  intros Hne Hfile Hext. exists (jpegOptions md).
  assert (Hsup : supported_ext (ext_of path) = true)
    by (destruct Hext as [-> | ->]; reflexivity).
  assert (Hopt : options_of (ext_of path) md = jpegOptions md)
    by (destruct Hext as [-> | ->]; reflexivity).
  rewrite run_supported by done. cbv zeta. rewrite Hopt.
  split.
  - destruct (sharp_toFile _ _ _ _).1; simpl; by rewrite <- app_assoc.
  - simpl. by rewrite join_concat.
Qed.

(** ** Keywords that hold the separator *)

Lemma string_app_assoc (a b c : string) : (a +:+ b) +:+ c = a +:+ b +:+ c.
Proof.
  induction a as [|x a IH]; [done |].
  change (String x ((a +:+ b) +:+ c) = String x (a +:+ b +:+ c)). by rewrite IH.
Qed.

Lemma join_separator_inside sep (k1 k2 : string) (ks : list string) :
  JsString.join sep ((k1 +:+ sep +:+ k2) :: ks) = JsString.join sep (k1 :: k2 :: ks).
Proof.
  destruct ks as [|k3 ks]; [reflexivity |].
  change ((k1 +:+ sep +:+ k2) +:+ sep +:+ JsString.join sep (k3 :: ks)
          = k1 +:+ sep +:+ k2 +:+ sep +:+ JsString.join sep (k3 :: ks)).
  by rewrite !string_app_assoc.
Qed.

(** X10. The separator is not escaped: a keyword that holds the separator of
    its format gives the same keyword string as the two keywords it splits
    into, for ";" in the JPEG XPKeywords and the TIFF options and for ", " in
    the PNG and WebP options. *)
Theorem keyword_separator_is_not_escaped (t d k1 k2 : string) (ks : list string) :
  let one sep := mkImageMetadata t d ((k1 +:+ sep +:+ k2) :: ks) in
  let two := mkImageMetadata t d (k1 :: k2 :: ks) in
  get_path ["exif"; "IFD0"; "XPKeywords"] (jpegOptions (one ";"))
    = get_path ["exif"; "IFD0"; "XPKeywords"] (jpegOptions two) /\
  tiffOptions (one ";") = tiffOptions two /\
  pngOptions (one ", ") = pngOptions two /\
  webpOptions (one ", ") = webpOptions two.
Proof.
  cbv zeta.
  unfold jpegOptions, exifMetadata, tiffOptions, tiffMetadata, pngOptions,
    pngMetadata, webpOptions, webpMetadata.
  cbn [keywords title description]. rewrite !join_separator_inside. done.
Qed.

(** ** Cleaning the reply of the model *)

Section Cleaning.
Import JsString.

Lemma of_chars_chars (s : string) : of_chars (chars s) = s.
Proof. apply string_of_list_ascii_of_string. Qed.

Lemma of_chars_app (a b : list ascii) : of_chars (a ++ b) = of_chars a +:+ of_chars b.
Proof.
  induction a as [|c a IH]; [done |].
  change (String c (of_chars (a ++ b)) = String c (of_chars a +:+ of_chars b)).
  by rewrite IH.
Qed.

Lemma startsWith_chars_app (p l : list ascii) : startsWith_chars p (p ++ l) = true.
Proof.
  induction p as [|c p IH]; [done |].
  cbn [app startsWith_chars]. by rewrite bool_decide_eq_true_2, IH.
Qed.

Lemma startsWith_chars_head (p l : list ascii) (c d : ascii) :
  c <> d -> startsWith_chars (c :: p) (d :: l) = false.
Proof. intros H. cbn [startsWith_chars]. by rewrite bool_decide_eq_false_2. Qed.

Lemma replace_leading_match (pat rest : string) :
  replace_leading pat (pat +:+ rest) = rest.
Proof.
  unfold replace_leading. rewrite chars_app, startsWith_chars_app.
  by rewrite drop_app_length, of_chars_chars.
Qed.

Lemma replace_trailing_match (pat rest : string) :
  replace_trailing pat (rest +:+ pat) = rest.
Proof.
  unfold replace_trailing. rewrite chars_app, rev_app_distr, startsWith_chars_app.
  rewrite length_app, Nat.add_sub, take_app_length. apply of_chars_chars.
Qed.

(** X11. A reply that starts with the opening fence and ends with the closing
    fence is cleaned to what stands between them, trimmed of white space. *)
Theorem fenced_reply_is_unwrapped (inner : string) :
  cleanedResponse ("```json" +:+ inner +:+ "```") = trim inner.
Proof.
  unfold cleanedResponse.
  by rewrite replace_leading_match, replace_trailing_match.
Qed.

Lemma trimStart_white_app (a b : list ascii) :
  white a -> trimStart_chars (a ++ b) = trimStart_chars b.
Proof.
  induction 1 as [|c a Hc _ IH]; [done |].
  cbn [app trimStart_chars]. by rewrite Hc.
Qed.

Lemma trimStart_keeps_tail (l : list ascii) (c : ascii) (q : list ascii) :
  isWhiteSpace c = false ->
  exists r, trimStart_chars (l ++ c :: q) = r ++ c :: q.
Proof.
  intros Hc. induction l as [|x l [r IH]].
  - exists []. cbn [app trimStart_chars]. by rewrite Hc.
  - cbn [app trimStart_chars]. destruct (isWhiteSpace x); [by exists r |].
    by exists (x :: l).
Qed.

Lemma trimStart_head (c : ascii) (l : list ascii) :
  isWhiteSpace c = false -> trimStart_chars (c :: l) = c :: l.
Proof. intros Hc. cbn [trimStart_chars]. by rewrite Hc. Qed.

Lemma white_nonempty_last (ws : list ascii) :
  white ws -> ws <> [] -> exists a c, ws = a ++ [c] /\ isWhiteSpace c = true.
Proof.
  intros Hws Hne. destruct ws as [|x ws] using rev_ind; [done |].
  exists ws, x. split; [done |]. apply Forall_app in Hws as [_ Hx].
  by apply Forall_cons in Hx as [Hx _].
Qed.

Lemma trim_keeps_closing_fence (I W : list ascii) :
  white W -> exists r, trim_chars (I ++ chars "```" ++ W) = r ++ chars "```".
Proof.
  intros HW. unfold trim_chars.
  destruct (trimStart_keeps_tail I "`"%char (chars "``" ++ W) eq_refl) as [r Hr].
  change (chars "```" ++ W) with ("`"%char :: chars "``" ++ W). rewrite Hr.
  exists r.
  replace (r ++ "`"%char :: chars "``" ++ W) with ((r ++ chars "```") ++ W)
    by (by rewrite <- app_assoc).
  rewrite rev_app_distr, trimStart_white_app by (by apply Forall_rev).
  rewrite rev_app_distr. change (rev (chars "```")) with ("`"%char :: chars "``").
  cbn [app]. rewrite trimStart_head by done.
  change ("`"%char :: chars "``" ++ rev r) with (rev (chars "```") ++ rev r).
  by rewrite <- rev_app_distr, rev_involutive.
Qed.

Lemma trim_keeps_opening_fence (W I : list ascii) :
  white W -> exists r, trim_chars (W ++ chars "```json" ++ I) = chars "```json" ++ r.
Proof.
  intros HW. unfold trim_chars. rewrite trimStart_white_app by done.
  change (chars "```json" ++ I) with ("`"%char :: chars "``json" ++ I).
  rewrite trimStart_head by done.
  change ("`"%char :: chars "``json" ++ I) with (chars "```json" ++ I).
  rewrite rev_app_distr.
  change (rev (chars "```json")) with ("n"%char :: rev (chars "```jso")).
  destruct (trimStart_keeps_tail (rev I) "n"%char (rev (chars "```jso")) eq_refl)
    as [r ->].
  exists (rev r). rewrite rev_app_distr.
  change ("n"%char :: rev (chars "```jso")) with (rev (chars "```json")).
  by rewrite rev_involutive.
Qed.

(** X12. The fences are removed only where they touch the ends of the reply:
    with white space after the closing fence the cleaned reply still ends
    with the closing fence, and with white space before the opening fence it
    still starts with the opening fence. *)
Theorem fence_is_removed_only_at_the_ends (ws inner : string) :
  ws <> "" -> white (chars ws) ->
  (exists rest, cleanedResponse ("```json" +:+ inner +:+ "```" +:+ ws) = rest +:+ "```") /\
  (exists rest, cleanedResponse (ws +:+ "```json" +:+ inner +:+ "```") = "```json" +:+ rest).
Proof.
  intros Hne Hws.
  assert (Hne' : chars ws <> []).
  { intros E. apply Hne. by rewrite <- (of_chars_chars ws), E. }
  split.
  - destruct (white_nonempty_last (chars ws) Hws Hne') as (a & c & Hac & Hc).
    unfold cleanedResponse. rewrite replace_leading_match.
    assert (Hkeep : replace_trailing "```" (inner +:+ "```" +:+ ws)
                    = inner +:+ "```" +:+ ws).
    { unfold replace_trailing. rewrite !chars_app, Hac, !rev_app_distr.
      change (rev (chars "```")) with ("`"%char :: chars "``").
      cbn [rev app]. rewrite startsWith_chars_head; [done |].
      intros <-. discriminate Hc. }
    rewrite Hkeep. unfold trim. rewrite !chars_app.
    destruct (trim_keeps_closing_fence (chars inner) (chars ws) Hws) as [r ->].
    exists (of_chars r). by rewrite of_chars_app.
  - destruct (chars ws) as [|c W] eqn:Hcw; [done |].
    apply Forall_cons in Hws as Hc. destruct Hc as [Hc HW].
    unfold cleanedResponse.
    assert (Hkeep : replace_leading "```json" (ws +:+ "```json" +:+ inner +:+ "```")
                    = ws +:+ "```json" +:+ inner +:+ "```").
    { unfold replace_leading. rewrite chars_app, Hcw.
      change (chars "```json") with ("`"%char :: chars "``json").
      cbn [app]. rewrite startsWith_chars_head; [done |].
      intros <-. discriminate Hc. }
    rewrite Hkeep.
    replace (ws +:+ "```json" +:+ inner +:+ "```")
      with ((ws +:+ "```json" +:+ inner) +:+ "```")
      by (by rewrite !string_app_assoc).
    rewrite replace_trailing_match. unfold trim. rewrite !chars_app.
    destruct (trim_keeps_opening_fence (chars ws) (chars inner)) as [r ->].
    { rewrite Hcw. by constructor. }
    exists (of_chars r). by rewrite of_chars_app.
Qed.

(** X13. A reply whose first and last characters are neither white space nor
    a backquote, such as a bare JSON array, is left as it is. *)
Theorem bare_reply_is_left_as_it_is (c1 c2 : ascii) (mid : string) :
  isWhiteSpace c1 = false -> isWhiteSpace c2 = false ->
  c1 <> "`"%char -> c2 <> "`"%char ->
  cleanedResponse (String c1 (mid +:+ String c2 "")) = String c1 (mid +:+ String c2 "").
Proof.
  intros Hw1 Hw2 Hb1 Hb2.
  set (s := String c1 (mid +:+ String c2 "")).
  assert (Hchars : chars s = c1 :: chars mid ++ [c2]).
  { unfold s. change (chars (String c1 (mid +:+ String c2 "")))
      with (c1 :: chars (mid +:+ String c2 "")). by rewrite chars_app. }
  assert (Hrev : rev (chars s) = c2 :: rev (chars mid) ++ [c1]).
  { rewrite Hchars. cbn [rev]. by rewrite rev_app_distr. }
  unfold cleanedResponse.
  assert (H1 : replace_leading "```json" s = s).
  { unfold replace_leading. rewrite Hchars.
    change (chars "```json") with ("`"%char :: chars "``json").
    rewrite startsWith_chars_head; [done | congruence]. }
  rewrite H1.
  assert (H2 : replace_trailing "```" s = s).
  { unfold replace_trailing. rewrite Hrev.
    change (rev (chars "```")) with ("`"%char :: chars "``").
    rewrite startsWith_chars_head; [done | congruence]. }
  rewrite H2. unfold trim, trim_chars.
  rewrite Hchars, trimStart_head by done. rewrite <- Hchars, Hrev.
  rewrite trimStart_head by done. rewrite <- Hrev, rev_involutive.
  apply of_chars_chars.
Qed.
End Cleaning.

(** ** One upload through the route *)

Section Upload.

Variable sharp_toFile :
  gmap string FileData -> string -> JsVal -> string ->
  option JsError * gmap string FileData.

Lemma processImage_eq (filePath : string) (index : nat)
    (metadataArray : list ParsedEntry) (w : World) :
  processImage sharp_toFile filePath index metadataArray w
  = match addImageMetadata sharp_toFile (Some filePath)
            (entry_metadata <$> metadataArray !! index) w with
    | (Normal r, w1) =>
      (Normal (VObj (spread [("path", VStr (outputPath r))]
                       (match metadataArray !! index with
                        | Some entry => entry_object entry
                        | None => []
                        end))), w1)
    | (Throw e, w1) => (Throw e, w1)
    end.
Proof.
  unfold processImage, bind.
  by destruct (addImageMetadata _ _ _ _) as [[r|e] w1].
Qed.

Lemma cleanup_eq (filePath : string) (w : World) :
  try_catch (fs_unlink filePath) (fun _ => ret tt) w
  = (Normal tt, mkWorld (delete filePath (files w)) (log w)).
Proof.
  unfold try_catch, fs_unlink, ret.
  destruct (files w !! filePath) eqn:Hfile; [done |].
  destruct w as [fs lg]. cbn [files log] in *. by rewrite delete_id.
Qed.

Lemma processUpload_eq (filePath : string) (metadataArray : list ParsedEntry)
    (w : World) :
  processUpload sharp_toFile filePath metadataArray w
  = match processImage sharp_toFile filePath 0 metadataArray w with
    | (Normal processed, w1) =>
      (Normal (mkResponse 200 (VArr [processed])),
       mkWorld (delete filePath (files w1)) (log w1))
    | (Throw e, w1) =>
      (Normal (mkResponse 500 (VObj [("error", VStr (err_message e))])),
       mkWorld (delete filePath (files w1)) (log w1))
    end.
Proof.
  unfold processUpload, try_finally. unfold try_catch at 1. unfold bind at 1.
  destruct (processImage _ _ _ _ _) as [[processed|e] w1];
    cbn [ret]; by rewrite cleanup_eq.
Qed.







(** X14. When the parsed array has no entry at the index of an uploaded file,
    the callback for that file fails with the missing-input error of the
    embedder and touches nothing. *)
Theorem missing_entry_rejects_the_upload (filePath : string) (index : nat)
    (metadataArray : list ParsedEntry) (w : World) :
  (length metadataArray <= index)%nat ->
  processImage sharp_toFile filePath index metadataArray w
  = (Throw (Error "Failed to add metadata: Image path and metadata are required"), w).
Proof.
  intros Hlen. rewrite processImage_eq, (lookup_ge_None_2 _ _ Hlen).
  cbn [fmap option_fmap option_map].
  by rewrite run_missing_input by auto.
Qed.

(** X15. For a request with one file, the route always replies, with status
    200 or with status 500 and the message of the embedder's error, and the
    uploaded file is gone afterwards in either case. *)
Theorem upload_is_always_removed (filePath : string)
    (metadataArray : list ParsedEntry) (w : World) :
  exists response,
    (processUpload sharp_toFile filePath metadataArray w).1 = Normal response /\
    files (processUpload sharp_toFile filePath metadataArray w).2 !! filePath = None /\
    (statusCode response = 200 \/
     (statusCode response = 500 /\
      exists cause,
        body response
        = VObj [("error", VStr ("Failed to add metadata: " +:+ cause))])).
Proof.
  rewrite processUpload_eq, processImage_eq.
  destruct (addImageMetadata _ _ _ _) as [[r|e] w1] eqn:Hrun.
  - eexists. split; [reflexivity |]. cbn [snd files].
    split; [apply lookup_delete_eq | by left].
  - eexists. split; [reflexivity |]. cbn [snd files].
    split; [apply lookup_delete_eq | right]. split; [done |].
    unfold addImageMetadata, try_catch, throw in Hrun.
    destruct (addImageMetadata_try _ _ _ _) as [[r0|inner] w0]; [discriminate |].
    injection Hrun as <- _. by exists (err_message inner).
Qed.


End Upload.


(** ** The name of the output file *)

Section OutputName.
Import JsString Path.
Local Close Scope string_scope.

Lemma is_dot : isDot CHAR_DOT = true.
Proof. reflexivity. Qed.

Lemma not_dot c : c <> CHAR_DOT -> isDot c = false.
Proof. intros. unfold isDot. by apply bool_decide_eq_false_2. Qed.

Lemma extname_loop_tail (a R : list ascii) :
  forall i sd e pre,
    no_slash a ->
    (R = [] \/ exists R', R = CHAR_FORWARD_SLASH :: R') ->
    i = len R + len a - 1 ->
    sd <> -1 -> e <> -1 ->
    (pre = -1 \/ pre = 1 \/ a <> []) ->
    exists pre',
      (pre' = -1 \/ pre' = 1)
      /\ extname_loop (a ++ R) i sd 0 e false pre = (sd, len R, e, pre').
Proof.
  induction a as [|c a IH]; intros i sd e pre Ha HR Hi Hsd He Hpre.
  - exists pre. split; [destruct Hpre as [? | [? | ?]]; auto; done |].
    destruct HR as [-> | [R' ->]]; cbn [extname_loop app]; [reflexivity |].
    rewrite is_slash. cbn [negb]. change (len []) with 0 in Hi.
    do 3 f_equal. lia.
  - apply Forall_cons in Ha as [Hc Ha]. rewrite len_cons in Hi.
    cbn [extname_loop app]. rewrite (not_slash c Hc).
    destruct (Z.eqb_spec e (-1)); [done |].
    destruct (Z.eqb_spec sd (-1)); [done |]. cbn [negb].
    destruct (isDot c).
    + destruct (negb (pre =? 1)) eqn:Hp.
      * apply IH; auto. lia.
      * apply negb_false_iff, Z.eqb_eq in Hp. apply IH; auto. lia.
    + apply IH; auto. lia.
Qed.

Lemma extname_loop_letters (n : Z) (L rest : list ascii) :
  forall i e ms sp pre,
    Forall plain_char L -> L <> [] ->
    (e = -1 /\ i = n - 1) \/ (e = n /\ ms = false) ->
    n <> -1 ->
    extname_loop (L ++ rest) i (-1) sp e ms pre
    = extname_loop rest (i - len L) (-1) sp n false pre.
Proof.
  induction L as [|c L IH]; intros i e ms sp pre HL Hne Hst Hn; [done |].
  apply Forall_cons in HL as [[Hc Hd] HL].
  cbn [extname_loop app]. rewrite (not_slash c Hc), (not_dot c Hd).
  assert (Hfirst : (if e =? -1 then (false, i + 1) else (ms, e)) = (false, n)).
  { destruct Hst as [[-> ->] | [-> ->]].
    - cbn. f_equal. lia.
    - by destruct (Z.eqb_spec n (-1)). }
  rewrite Hfirst. change (negb (-1 =? -1)) with false. cbv iota.
  destruct L as [|c' L'].
  - reflexivity.
  - rewrite IH; [| done | done | by right | done].
    f_equal. unfold len. simpl length. lia.
Qed.

(** The extension of a name [stem.L] whose [L] has neither dot nor
    separator, under any directory. *)
Lemma extname_of_name (Y stem L : list ascii) :
  ends_dir Y -> no_slash stem -> stem <> [] ->
  Forall plain_char L -> L <> [] ->
  extname_chars (Y ++ stem ++ CHAR_DOT :: L) = CHAR_DOT :: L.
Proof.
  intros HY Hstem Hne HL HLne.
  set (path := Y ++ stem ++ CHAR_DOT :: L).
  pose proof (len_nonneg Y). pose proof (len_nonneg stem). pose proof (len_nonneg L).
  assert (HLpos : 0 < len L) by (unfold len; destruct L; [done | simpl length; lia]).
  assert (Hspos : 0 < len stem)
    by (unfold len; destruct stem; [done | simpl length; lia]).
  assert (Hlen : len path = len Y + len stem + 1 + len L).
  { unfold path. rewrite !len_app, len_cons. lia. }
  assert (Hrev : rev path = rev L ++ CHAR_DOT :: rev stem ++ rev Y).
  { unfold path. rewrite !rev_app_distr. cbn [rev]. by rewrite <- !app_assoc. }
  unfold extname_chars. fold path. rewrite Hrev.
  rewrite (extname_loop_letters (len path)); cycle 1.
  { by apply Forall_rev. }
  { intros E. apply (f_equal (@rev ascii)) in E. by rewrite rev_involutive in E. }
  { by left. }
  { lia. }
  replace (len (rev L)) with (len L) by (unfold len; by rewrite length_rev).
  cbn [extname_loop]. rewrite (not_slash CHAR_DOT) by done. rewrite is_dot.
  destruct (Z.eqb_spec (len path) (-1)); [lia |].
  change (-1 =? -1) with true. cbv iota.
  destruct (extname_loop_tail (rev stem) (rev Y) (len path - 1 - len L - 1)
              (len path - 1 - len L) (len path) 0) as (pre' & Hpre' & ->).
  - unfold no_slash. by apply Forall_rev.
  - by apply rev_ends_dir.
  - rewrite Hlen. unfold len. rewrite !length_rev. lia.
  - lia.
  - lia.
  - right. right. intros E. apply (f_equal (@rev ascii)) in E.
    by rewrite rev_involutive in E.
  - destruct (Z.eqb_spec (len path - 1 - len L) (-1)); [lia |].
    destruct (Z.eqb_spec (len path) (-1)); [lia |].
    destruct (Z.eqb_spec pre' 0); [lia |].
    destruct (Z.eqb_spec (len path - 1 - len L) (len path - 1)); [lia |].
    destruct (pre' =? 1); cbn [orb andb].
    all: unfold path; rewrite (app_assoc Y stem).
    all: replace (len ((Y ++ stem) ++ CHAR_DOT :: L) - 1 - len L) with (len (Y ++ stem))
      by (rewrite !len_app, len_cons; lia).
    all: rewrite slice_app_suffix by (rewrite !len_app, len_cons; lia).
    all: apply take_ge; rewrite !len_app, len_cons; unfold len; simpl length; lia.
Qed.


Lemma len_rev (l : list ascii) : len (rev l) = len l.
Proof. unfold len. by rewrite length_rev. Qed.

Lemma charCodeAt_middle (a : list ascii) (c : ascii) (b : list ascii) :
  charCodeAt (a ++ c :: b) (len a) = Some c.
Proof.
  unfold charCodeAt. pose proof (len_nonneg a).
  destruct (Z.ltb_spec (len a) 0); [lia |].
  replace (Z.to_nat (len a)) with (length a) by (unfold len; lia).
  apply list_lookup_middle. done.
Qed.

(** Matching a suffix: the characters [c :: r], read backwards, are those of
    the suffix from index [len s1 + len r] down. *)
Lemma basename_suffix_loop_match (n : Z) (s1 : list ascii) (r : list ascii) :
  forall (c : ascii) (s3 rest : list ascii) i ms fnse,
    no_slash (c :: r) -> 0 <= n ->
    (fnse = -1 /\ i = n - 1) \/ (fnse = n /\ ms = false) ->
    basename_suffix_loop (s1 ++ rev (c :: r) ++ s3) (c :: r ++ rest) i
      0 (-1) ms (len s1 + len r) fnse
    = basename_suffix_loop (s1 ++ rev (c :: r) ++ s3) rest (i - len (c :: r))
        0 (if len s1 =? 0 then i - len r else -1) false (len s1 - 1) n.
Proof.
  induction r as [|c2 r IH]; intros c s3 rest i ms fnse Hno Hn Hst.
  - apply Forall_cons in Hno as [Hc _].
    cbn [basename_suffix_loop app rev]. rewrite (not_slash c Hc).
    assert (Hfirst : (if fnse =? -1 then (false, i + 1) else (ms, fnse)) = (false, n)).
    { destruct Hst as [[-> ->] | [-> ->]].
      - cbn. f_equal. lia.
      - destruct (Z.eqb_spec n (-1)); [lia | done]. }
    rewrite Hfirst. change (len []) with 0. rewrite Z.add_0_r.
    pose proof (len_nonneg s1).
    rewrite Z.geb_leb. destruct (Z.leb_spec 0 (len s1)); [| lia].
    rewrite charCodeAt_middle. rewrite bool_decide_eq_true_2 by done.
    change (len [c]) with 1. rewrite Z.sub_0_r.
    destruct (Z.eqb_spec (len s1 - 1) (-1)), (Z.eqb_spec (len s1) 0);
      try lia; reflexivity.
  - apply Forall_cons in Hno as [Hc Hno].
    set (tail := (c2 :: r) ++ rest).
    cbn [basename_suffix_loop]. rewrite (not_slash c Hc).
    assert (Hfirst : (if fnse =? -1 then (false, i + 1) else (ms, fnse)) = (false, n)).
    { destruct Hst as [[-> ->] | [-> ->]].
      - cbn. f_equal. lia.
      - destruct (Z.eqb_spec n (-1)); [lia | done]. }
    rewrite Hfirst. subst tail. cbn [app].
    pose proof (len_nonneg s1). pose proof (len_nonneg r).
    rewrite len_cons.
    rewrite Z.geb_leb. destruct (Z.leb_spec 0 (len s1 + (len r + 1))); [| lia].
    assert (Hat : charCodeAt (s1 ++ rev (c :: c2 :: r) ++ s3) (len s1 + (len r + 1))
                  = Some c).
    { replace (s1 ++ rev (c :: c2 :: r) ++ s3)
        with (((s1 ++ rev r) ++ [c2]) ++ c :: s3)
        by (cbn [rev]; by rewrite <- !app_assoc).
      replace (len s1 + (len r + 1)) with (len ((s1 ++ rev r) ++ [c2])).
      - apply charCodeAt_middle.
      - rewrite !len_app. change (len [c2]) with 1. unfold len.
        rewrite length_rev. lia. }
    rewrite Hat, bool_decide_eq_true_2 by done.
    destruct (Z.eqb_spec (len s1 + (len r + 1) - 1) (-1)); [lia |].
    replace (len s1 + (len r + 1) - 1) with (len s1 + len r) by lia.
    replace (s1 ++ rev (c :: c2 :: r) ++ s3) with (s1 ++ rev (c2 :: r) ++ c :: s3)
      by (cbn [rev]; by rewrite <- !app_assoc).
    rewrite (IH c2 (c :: s3) rest (i - 1) false n); [| done | done |].
    + rewrite !len_cons.
      replace (i - 1 - (len r + 1)) with (i - (len r + 1 + 1)) by lia.
      replace (i - 1 - len r) with (i - (len r + 1)) by lia.
      reflexivity.
    + by right.
Qed.

Lemma basename_suffix_loop_done (sfx : list ascii) (n : Z) (a R : list ascii) :
  forall i e extIdx,
    no_slash a ->
    (R = [] \/ exists R', R = CHAR_FORWARD_SLASH :: R') ->
    i = len R + len a - 1 -> extIdx < 0 -> n <> -1 ->
    basename_suffix_loop sfx (a ++ R) i 0 e false extIdx n = (len R, e, n).
Proof.
  induction a as [|c a IH]; intros i e extIdx Ha HR Hi Hext Hn.
  - destruct HR as [-> | [R' ->]]; cbn [basename_suffix_loop app]; [reflexivity |].
    rewrite is_slash. cbn [negb]. change (len []) with 0 in Hi.
    do 2 f_equal. lia.
  - apply Forall_cons in Ha as [Hc Ha]. rewrite len_cons in Hi.
    cbn [basename_suffix_loop app]. rewrite (not_slash c Hc).
    destruct (Z.eqb_spec n (-1)); [done |].
    rewrite Z.geb_leb. destruct (Z.leb_spec 0 extIdx); [lia |].
    apply IH; auto. lia.
Qed.

(** [basename] strips a suffix that the last component ends with. *)
Lemma basename_strips_suffix (X stem sfx : list ascii) :
  ends_dir X -> no_slash stem -> stem <> [] -> no_slash sfx -> sfx <> [] ->
  basename_chars (X ++ stem ++ sfx) (Some sfx) = stem.
Proof.
  intros HX Hstem Hne Hsfx Hsne.
  pose proof (len_nonneg X). pose proof (len_nonneg stem). pose proof (len_nonneg sfx).
  assert (Hspos : 0 < len stem)
    by (unfold len; destruct stem; [done | simpl length; lia]).
  assert (Hxpos : 0 < len sfx)
    by (unfold len; destruct sfx; [done | simpl length; lia]).
  assert (Hlen : len (X ++ stem ++ sfx) = len X + len stem + len sfx)
    by (rewrite !len_app; lia).
  unfold basename_chars.
  destruct (Z.ltb_spec 0 (len sfx)); [| lia].
  destruct (Z.leb_spec (len sfx) (len (X ++ stem ++ sfx))); [| lia].
  cbn [andb].
  rewrite bool_decide_eq_false_2; cycle 1.
  { intros E. apply (f_equal len) in E. lia. }
  destruct (rev sfx) as [|c r] eqn:Hrev.
  { apply (f_equal (@rev ascii)) in Hrev. by rewrite rev_involutive in Hrev. }
  assert (Hsfx' : sfx = rev (c :: r)) by (by rewrite <- Hrev, rev_involutive).
  assert (Hlenr : len sfx = len r + 1).
  { rewrite Hsfx'. unfold len. rewrite length_rev. simpl length. lia. }
  rewrite !rev_app_distr, Hrev, <- app_assoc. cbn [app].
  pose proof (basename_suffix_loop_match (len (X ++ stem ++ sfx)) [] r c []
                (rev stem ++ rev X) (len (X ++ stem ++ sfx) - 1) true (-1)) as Hm.
  cbn [app] in Hm. rewrite app_nil_r, <- Hsfx' in Hm.
  change (len []) with 0 in Hm. rewrite Z.add_0_l in Hm.
  replace (len sfx - 1) with (len r) by lia.
  rewrite Hm; cycle 1.
  { rewrite <- Hrev. unfold no_slash. by apply Forall_rev. }
  { lia. }
  { by left. }
  change (0 =? 0) with true. cbv iota.
  rewrite (basename_suffix_loop_done sfx (len (X ++ stem ++ sfx)) (rev stem) (rev X));
    cycle 1.
  { unfold no_slash. by apply Forall_rev. }
  { by apply rev_ends_dir. }
  { rewrite len_cons, Hlen, Hlenr, !len_rev. lia. }
  { lia. }
  { lia. }
  replace (len (rev X)) with (len X) by (unfold len; by rewrite length_rev).
  destruct (Z.eqb_spec (len X) (len (X ++ stem ++ sfx) - 1 - len r)); [lia |].
  destruct (Z.eqb_spec (len (X ++ stem ++ sfx) - 1 - len r) (-1)); [lia |].
  rewrite slice_app_suffix by lia.
  replace (Z.to_nat (len (X ++ stem ++ sfx) - 1 - len r - len X)) with (length stem)
    by (unfold len in *; lia).
  by rewrite take_app_length.
Qed.


Lemma supported_ext_shape (ext : string) :
  supported_ext ext = true ->
  exists L0 c,
    chars ext = CHAR_DOT :: L0 ++ [c] /\ Forall plain_char (L0 ++ [c])
    /\ toLowerCase ext = ext.
Proof.
  unfold supported_ext, supported_extensions. intros H.
  apply bool_decide_eq_true_1 in H.
  repeat (apply elem_of_cons in H as [-> | H];
          [ match goal with
            | |- context [chars ?e] =>
              exists (removelast (tail (chars e))), (List.last (chars e) zero)
            end;
            split; [reflexivity |]; split; [| reflexivity];
            simpl; repeat constructor; discriminate |]).
  by apply elem_of_nil in H.
Qed.

Lemma plain_no_slash (l : list ascii) : Forall plain_char l -> no_slash l.
Proof. intros H. eapply Forall_impl; [exact H |]. by intros c [? ?]. Qed.

Lemma with_metadata_no_slash : no_slash (chars "_with_metadata").
Proof. repeat constructor; discriminate. Qed.

(** The characters of the output path: a directory prefix, the last
    component of what [basename] gave, the fixed text and the extension. *)
Lemma output_chars_shape (p L0 : list ascii) (c : ascii) :
  Forall plain_char (L0 ++ [c]) ->
  exists Y b1 b2,
    ends_dir Y /\ ends_dir b1 /\ no_slash b2 /\
    basename_chars p (Some (CHAR_DOT :: L0 ++ [c])) = b1 ++ b2 /\
    join_chars [dirname_chars p;
                basename_chars p (Some (CHAR_DOT :: L0 ++ [c]))
                ++ chars "_with_metadata" ++ CHAR_DOT :: L0 ++ [c]]
    = Y ++ (b2 ++ chars "_with_metadata") ++ CHAR_DOT :: L0 ++ [c].
Proof.
  intros HL. apply Forall_app in HL as HL'. destruct HL' as [HL0 Hc].
  apply Forall_cons in Hc as [[Hc Hd] _].
  destruct (split_last_component (basename_chars p (Some (CHAR_DOT :: L0 ++ [c]))))
    as (b1 & b2 & Hbn & Hb1 & Hb2).
  destruct (join_component (dirname_chars p) b1
              (b2 ++ chars "_with_metadata" ++ CHAR_DOT :: L0) c)
    as (Y & HY & Hjoin); try done.
  { apply Forall_app. split; [done |]. apply Forall_app.
    split; [apply with_metadata_no_slash |].
    constructor; [done | by apply plain_no_slash]. }
  exists Y, b1, b2. repeat (split; [done |]).
  rewrite Hbn.
  replace ((b1 ++ b2) ++ chars "_with_metadata" ++ CHAR_DOT :: L0 ++ [c])
    with (b1 ++ (b2 ++ chars "_with_metadata" ++ CHAR_DOT :: L0) ++ [c])
    by (rewrite <- !app_assoc; done).
  rewrite Hjoin. by rewrite <- !app_assoc.
Qed.

(** X5. When the extension of the source is supported, the extension of the
    output path is the lower-cased extension of the source: the output of the
    embedder is itself a path the embedder accepts. *)
Theorem output_keeps_the_lower_cased_extension (path : string) :
  supported_ext (ext_of path) = true ->
  Path.extname (outputPath_of path) = ext_of path /\
  ext_of (outputPath_of path) = ext_of path.
Proof.
  intros Hext.
  destruct (supported_ext_shape _ Hext) as (L0 & c & Hchars & HL & Hlower).
  assert (Hname : Path.extname (outputPath_of path) = ext_of path).
  { unfold outputPath_of, Path.join, Path.dirname, Path.basename, Path.extname.
    cbn [map]. rewrite !chars_of_chars, !chars_app, !chars_of_chars, Hchars.
    destruct (output_chars_shape (chars path) L0 c HL)
      as (Y & b1 & b2 & HY & _ & Hb2 & _ & ->).
    rewrite extname_of_name; try done.
    - by rewrite <- Hchars, of_chars_chars.
    - apply Forall_app. split; [done | apply with_metadata_no_slash].
    - by destruct b2.
    - by destruct L0. }
  split; [done |]. unfold ext_of at 1. by rewrite Hname.
Qed.

Lemma lower_case_name_parts (dir stem ext : string) :
  supported_ext ext = true -> ends_dir (chars dir) ->
  stem <> ""%string -> no_slash (chars stem) ->
  ext_of (dir +:+ stem +:+ ext) = ext /\
  Path.basename (dir +:+ stem +:+ ext) ext = stem.
Proof.
  intros Hext HD Hne Hstem.
  destruct (supported_ext_shape _ Hext) as (L0 & c & Hchars & HL & Hlower).
  assert (Hne' : chars stem <> []).
  { intros E. apply Hne. by rewrite <- (of_chars_chars stem), E. }
  assert (Hpath : chars (dir +:+ stem +:+ ext)
                  = chars dir ++ chars stem ++ CHAR_DOT :: L0 ++ [c]).
  { by rewrite !chars_app, Hchars. }
  split.
  - unfold ext_of, Path.extname. rewrite Hpath, extname_of_name; try done.
    + by rewrite <- Hchars, of_chars_chars.
    + by destruct L0.
  - unfold Path.basename. rewrite Hpath, Hchars, basename_strips_suffix; try done.
    + apply of_chars_chars.
    + constructor; [done | by apply plain_no_slash].
Qed.

(** X6. For a source [dir/stem.ext] whose extension is written in lower case
    and supported ([dir] empty or ending with a separator, [stem] a non-empty
    name without separator), the extension found is [ext], the base name
    stripped of it is [stem], and the output path is [stem_with_metadata.ext]
    under some directory prefix. *)
Theorem output_name_for_a_lower_case_extension (dir stem ext : string) :
  supported_ext ext = true ->
  (dir = ""%string \/ exists d, dir = d +:+ "/") ->
  stem <> ""%string -> no_slash (chars stem) ->
  let path := dir +:+ stem +:+ ext in
  ext_of path = ext /\
  Path.basename path ext = stem /\
  exists outdir,
    (outdir = ""%string \/ exists d, outdir = d +:+ "/") /\
    outputPath_of path = outdir +:+ stem +:+ "_with_metadata" +:+ ext.
Proof.
  intros Hext Hdir Hne Hstem path.
  assert (HD : ends_dir (chars dir)).
  { destruct Hdir as [-> | [d ->]]; [by left | right].
    exists (chars d). by rewrite chars_app. }
  destruct (lower_case_name_parts dir stem ext Hext HD Hne Hstem) as [Hextname Hbase].
  fold path in Hextname, Hbase.
  destruct (supported_ext_shape _ Hext) as (L0 & c & Hchars & HL & Hlower).
  split; [done |]. split; [done |].
  unfold outputPath_of. rewrite Hextname, Hbase.
  unfold Path.join, Path.dirname. cbn [map].
  rewrite !chars_of_chars, !chars_app, Hchars.
  apply Forall_app in HL as HL'. destruct HL' as [HL0 Hc].
  apply Forall_cons in Hc as [[Hc Hd] _].
  destruct (join_component (dirname_chars (chars path)) []
              (chars stem ++ chars "_with_metadata" ++ CHAR_DOT :: L0) c)
    as (Y & HY & Hjoin); try done.
  { by left. }
  { apply Forall_app. split; [done |]. apply Forall_app.
    split; [apply with_metadata_no_slash |].
    constructor; [done | by apply plain_no_slash]. }
  cbn [app] in Hjoin.
  replace (chars stem ++ chars "_with_metadata" ++ CHAR_DOT :: L0 ++ [c])
    with ((chars stem ++ chars "_with_metadata" ++ CHAR_DOT :: L0) ++ [c])
    by (rewrite <- !app_assoc; done).
  rewrite Hjoin. exists (of_chars Y). split.
  - destruct HY as [-> | [Y' ->]]; [by left | right].
    exists (of_chars Y'). by rewrite of_chars_app.
  - rewrite <- !app_assoc. cbn [app].
    rewrite !of_chars_app, of_chars_chars.
    rewrite <- Hchars, !of_chars_chars. reflexivity.
Qed.

(** *** The directory of the output *)

Lemma normalizeString_component_res allow (P f0 : list ascii) (c : ascii) :
  ends_dir P -> no_slash f0 -> c <> CHAR_FORWARD_SLASH -> c <> CHAR_DOT ->
  normalizeString (P ++ f0 ++ [c]) allow
  = let res := ns_res (norm_steps (P ++ f0 ++ [c]) allow P 0 norm_init) in
    if 0 <? len res then res ++ CHAR_FORWARD_SLASH :: f0 ++ [c] else f0 ++ [c].
Proof.
  intros HP Hf Hc Hd.
  unfold normalizeString. rewrite normalizeString_loop_end. cbv zeta.
  destruct (norm_steps_last (P ++ f0 ++ [c]) allow P f0 c HP Hf Hc Hd)
    as (HlastSlash & Hdots & Hcode).
  assert (Hres : ns_res (norm_steps (P ++ f0 ++ [c]) allow (P ++ f0 ++ [c]) 0 norm_init)
                 = ns_res (norm_steps (P ++ f0 ++ [c]) allow P 0 norm_init)).
  { rewrite (norm_steps_app _ _ P).
    apply norm_steps_component. apply Forall_app. split; [done | by constructor]. }
  set (st := norm_steps (P ++ f0 ++ [c]) allow (P ++ f0 ++ [c]) 0 norm_init) in *.
  rewrite Hcode, (not_slash c Hc).
  unfold normalizeString_step. rewrite is_slash, HlastSlash, Hdots, Hres.
  pose proof (len_nonneg P). pose proof (len_nonneg f0).
  assert (Hlen : len (P ++ f0 ++ [c]) = len P + len f0 + 1).
  { rewrite !len_app. change (len [c]) with 1. lia. }
  rewrite Z.add_0_l.
  destruct (Z.eqb_spec (len P - 1) (len (P ++ f0 ++ [c]) - 1)); [lia |].
  cbn [orb Z.eqb].
  replace (len P - 1 + 1) with (len P) by lia.
  rewrite slice_app_suffix by lia.
  rewrite take_ge; [done |]. rewrite Hlen, length_app. unfold len. simpl length. lia.
Qed.

Lemma slice_prefix (D rest : list ascii) : slice (D ++ rest) 0 (len D) = D.
Proof.
  pose proof (len_nonneg D). pose proof (len_nonneg rest).
  unfold slice, slice_index. rewrite len_app.
  destruct (Z.ltb_spec (len D) 0); [lia |].
  change (0 <? 0) with false. cbv iota.
  rewrite !Z.min_l by lia. rewrite Z.sub_0_r. change (Z.to_nat 0) with 0%nat.
  replace (Z.to_nat (len D)) with (length D) by (unfold len; lia).
  rewrite drop_0. apply take_app_length.
Qed.

(** [path.join(d, f)] for a directory name [d] and a file name [f], both
    plain: [d/f]. *)
Lemma join_plain_directory (d0 : list ascii) (x : ascii) (f0 : list ascii) (c : ascii) :
  no_slash d0 -> plain_char x -> no_slash f0 -> plain_char c ->
  join_chars [d0 ++ [x]; f0 ++ [c]] = (d0 ++ [x]) ++ CHAR_FORWARD_SLASH :: f0 ++ [c].
Proof.
  intros Hd0 [Hx Hxd] Hf0 [Hc Hcd].
  set (D := d0 ++ [x]).
  pose proof (len_nonneg d0). pose proof (len_nonneg f0).
  assert (HlenD : len D = len d0 + 1)
    by (unfold D; rewrite len_app; change (len [x]) with 1; lia).
  unfold join_chars. cbn [join_loop].
  destruct (Z.ltb_spec 0 (len D)); [| lia].
  destruct (Z.ltb_spec 0 (len (f0 ++ [c])));
    [| rewrite len_app in *; change (len [c]) with 1 in *; lia].
  set (path := D ++ CHAR_FORWARD_SLASH :: f0 ++ [c]).
  assert (Hpath : path = (D ++ [CHAR_FORWARD_SLASH]) ++ f0 ++ [c])
    by (unfold path; by rewrite <- app_assoc).
  assert (Hnorm : forall allow, normalizeString path allow = path).
  { intros allow. rewrite Hpath.
    rewrite normalizeString_component_res; try done; [| right; by exists D].
    cbv zeta. rewrite <- Hpath.
    rewrite norm_steps_app. cbn [norm_steps].
    destruct (norm_steps_last path allow [] d0 x) as (HlastSlash & Hdots & _);
      try done; [by left |].
    destruct (norm_steps_component path allow (d0 ++ [x]) 0 norm_init) as [Hres _].
    { apply Forall_app. split; [done | by constructor]. }
    cbn [app] in HlastSlash, Hdots. fold D in HlastSlash, Hdots, Hres.
    unfold normalizeString_step. rewrite is_slash, HlastSlash, Hdots, Hres.
    change (len []) with 0. rewrite Z.add_0_l.
    destruct (Z.eqb_spec (0 - 1) (len D - 1)); [lia |].
    cbn [orb Z.eqb ns_res norm_init].
    change (0 <? len []) with false. cbv iota.
    replace (0 - 1 + 1) with 0 by lia.
    assert (Hs : slice path 0 (len D) = D) by apply slice_prefix.
    rewrite !Hs. cbn [ns_res].
    destruct (Z.ltb_spec 0 (len D)); [| lia].
    reflexivity. }
  unfold normalize_chars.
  assert (Hlast : charCodeAt path (len path - 1) = Some c).
  { unfold path.
    replace (D ++ CHAR_FORWARD_SLASH :: f0 ++ [c])
      with ((D ++ CHAR_FORWARD_SLASH :: f0) ++ [c]) by (by rewrite <- app_assoc).
    apply charCodeAt_last. }
  destruct path as [|c0 rest] eqn:Hp; [by destruct D |].
  assert (Hc0 : isPosixPathSeparator c0 = false).
  { apply not_slash. unfold D in Hpath.
    destruct d0 as [|y d0']; cbn [app] in Hpath; injection Hpath as -> _; [done |].
    by apply Forall_cons in Hd0 as [? _]. }
  rewrite Hc0, Hlast, Hnorm.
  by rewrite bool_decide_eq_false_2 by (intros [= ->]; done).
Qed.

(** [path.join(".", f)] for a plain file name [f]: [f]. *)
Lemma join_current_directory (f0 : list ascii) (c : ascii) :
  no_slash f0 -> plain_char c ->
  join_chars [chars "."; f0 ++ [c]] = f0 ++ [c].
Proof.
  intros Hf0 [Hc Hcd]. pose proof (len_nonneg f0).
  unfold join_chars. cbn [join_loop].
  change (0 <? len (chars ".")) with true. cbv iota.
  destruct (Z.ltb_spec 0 (len (f0 ++ [c])));
    [| rewrite len_app in *; change (len [c]) with 1 in *; lia].
  change (chars "." ++ CHAR_FORWARD_SLASH :: f0 ++ [c])
    with (CHAR_DOT :: CHAR_FORWARD_SLASH :: f0 ++ [c]).
  unfold normalize_chars.
  assert (Hlast : charCodeAt (CHAR_DOT :: CHAR_FORWARD_SLASH :: f0 ++ [c])
                    (len (CHAR_DOT :: CHAR_FORWARD_SLASH :: f0 ++ [c]) - 1) = Some c).
  { change (CHAR_DOT :: CHAR_FORWARD_SLASH :: f0 ++ [c])
      with ((CHAR_DOT :: CHAR_FORWARD_SLASH :: f0) ++ [c]).
    apply charCodeAt_last. }
  rewrite Hlast. change (isPosixPathSeparator CHAR_DOT) with false.
  rewrite bool_decide_eq_false_2 by (intros [= ->]; done).
  change (CHAR_DOT :: CHAR_FORWARD_SLASH :: f0 ++ [c])
    with ([CHAR_DOT; CHAR_FORWARD_SLASH] ++ f0 ++ [c]).
  rewrite normalizeString_component_res; try done; [| right; by exists [CHAR_DOT]].
  cbv zeta. cbn [norm_steps]. by destruct f0.
Qed.

Lemma dirname_loop_component (a R : list ascii) :
  forall i e ms,
    no_slash a -> (a <> [] \/ ms = false) ->
    dirname_loop (a ++ CHAR_FORWARD_SLASH :: R) i e ms = i - len a.
Proof.
  induction a as [|c a IH]; intros i e ms Ha Hst.
  - destruct Hst as [? | ->]; [done |]. cbn [dirname_loop app].
    rewrite is_slash. cbn [negb]. change (len []) with 0. lia.
  - apply Forall_cons in Ha as [Hc Ha]. cbn [dirname_loop app].
    rewrite (not_slash c Hc), IH by auto. rewrite len_cons. lia.
Qed.

Lemma dirname_loop_no_slash (a : list ascii) :
  forall i e ms, no_slash a -> dirname_loop a i e ms = e.
Proof.
  induction a as [|c a IH]; intros i e ms Ha; [done |].
  apply Forall_cons in Ha as [Hc Ha]. cbn [dirname_loop].
  by rewrite (not_slash c Hc), IH.
Qed.

Lemma dirname_plain_directory (D N : list ascii) :
  no_slash D -> D <> [] -> no_slash N -> N <> [] ->
  dirname_chars (D ++ CHAR_FORWARD_SLASH :: N) = D.
Proof.
  intros HD HDne HN HNne.
  destruct D as [|c0 D'] eqn:HDeq; [done |]. rewrite <- HDeq.
  pose proof (len_nonneg D'). pose proof (len_nonneg N).
  assert (HlenD : len D = len D' + 1) by (rewrite HDeq; apply len_cons).
  unfold dirname_chars. rewrite HDeq at 1. cbn [app].
  apply Forall_cons in HD as [Hc0 HD'].
  rewrite rev_app_distr. cbn [rev]. rewrite <- app_assoc. cbn [app].
  rewrite dirname_loop_component; cycle 1.
  { unfold no_slash. by apply Forall_rev. }
  { left. intros E. apply (f_equal (@rev ascii)) in E. by rewrite rev_involutive in E. }
  rewrite len_rev, len_app, len_cons.
  replace (len D + (len N + 1) - 1 - len N) with (len D) by lia.
  destruct (Z.eqb_spec (len D) (-1)); [lia |].
  rewrite (not_slash c0 Hc0). cbn [andb].
  apply slice_prefix.
Qed.

Lemma dirname_no_directory (N : list ascii) :
  no_slash N -> dirname_chars N = chars ".".
Proof.
  intros HN. unfold dirname_chars. destruct N as [|c0 N']; [done |].
  apply Forall_cons in HN as [Hc0 HN'].
  rewrite dirname_loop_no_slash by (unfold no_slash; by apply Forall_rev).
  by rewrite (not_slash c0 Hc0).
Qed.

(** X17. The output lands next to the source: for a source in a directory
    with a plain name (no separator, not ending with a dot) the output path
    is [d/stem_with_metadata.ext] in the same directory, and for a source
    given without a directory it is [stem_with_metadata.ext], with no
    directory in front. *)
Theorem output_stays_in_the_directory (d stem ext : string) (x : ascii) :
  supported_ext ext = true ->
  no_slash (chars d) -> plain_char x ->
  stem <> ""%string -> no_slash (chars stem) ->
  outputPath_of (d +:+ String x "/" +:+ stem +:+ ext)
  = d +:+ String x "/" +:+ stem +:+ "_with_metadata" +:+ ext /\
  outputPath_of (stem +:+ ext) = stem +:+ "_with_metadata" +:+ ext.
Proof.
  intros Hext Hd Hx Hne Hstem.
  destruct (supported_ext_shape _ Hext) as (L0 & c & Hchars & HL & Hlower).
  assert (Hne' : chars stem <> []).
  { intros E. apply Hne. by rewrite <- (of_chars_chars stem), E. }
  apply Forall_app in HL as HL'. destruct HL' as [HL0 Hc].
  apply Forall_cons in Hc as [Hc _].
  assert (Hname : no_slash (chars stem ++ chars ext)).
  { rewrite Hchars. apply Forall_app. split; [done |].
    constructor; [done | by apply plain_no_slash]. }
  assert (Hf0 : no_slash (chars stem ++ chars "_with_metadata" ++ CHAR_DOT :: L0)).
  { apply Forall_app. split; [done |]. apply Forall_app.
    split; [apply with_metadata_no_slash |].
    constructor; [done | by apply plain_no_slash]. }
  assert (Hout : chars (stem +:+ "_with_metadata" +:+ ext)
                 = (chars stem ++ chars "_with_metadata" ++ CHAR_DOT :: L0) ++ [c]).
  { rewrite !chars_app, Hchars. by rewrite <- !app_assoc. }
  split.
  - assert (HD : ends_dir (chars (d +:+ String x "/"))).
    { right. exists (chars d ++ [x]). rewrite chars_app, <- app_assoc. done. }
    destruct (lower_case_name_parts (d +:+ String x "/") stem ext Hext HD Hne Hstem)
      as [Hextname Hbase].
    rewrite string_app_assoc in Hextname, Hbase.
    unfold outputPath_of. rewrite Hextname, Hbase.
    unfold Path.join, Path.dirname. cbn [map]. rewrite !chars_of_chars, Hout.
    assert (Hdir : dirname_chars (chars (d +:+ String x "/" +:+ stem +:+ ext))
                   = chars d ++ [x]).
    { replace (chars (d +:+ String x "/" +:+ stem +:+ ext))
        with ((chars d ++ [x]) ++ CHAR_FORWARD_SLASH :: chars stem ++ chars ext)
        by (rewrite !chars_app, <- app_assoc; done).
      apply dirname_plain_directory; try done.
      - apply Forall_app. split; [done |]. constructor; [apply Hx | constructor].
      - by destruct (chars d).
      - by destruct (chars stem). }
    rewrite Hdir, join_plain_directory by done.
    rewrite <- Hout, <- (of_chars_chars (d +:+ _)). f_equal.
    rewrite !chars_app, <- !app_assoc. done.
  - assert (HD : ends_dir (chars ""%string)) by (by left).
    destruct (lower_case_name_parts ""%string stem ext Hext HD Hne Hstem)
      as [Hextname Hbase].
    change (""%string +:+ stem +:+ ext) with (stem +:+ ext) in Hextname, Hbase.
    unfold outputPath_of. rewrite Hextname, Hbase.
    unfold Path.join, Path.dirname. cbn [map]. rewrite !chars_of_chars, Hout.
    rewrite chars_app, dirname_no_directory by done.
    rewrite join_current_directory by done.
    by rewrite <- Hout, of_chars_chars.
Qed.

End OutputName.

(** ** Instances *)

Lemma output_is_never_the_source_witness :
  addImageMetadata sharp_copy (Some "x.png") (Some sunset) (one_file "x.png")
  = (Normal (mkEmbedResult "success" "x_with_metadata.png" "Metadata added successfully"),
     (addImageMetadata sharp_copy (Some "x.png") (Some sunset) (one_file "x.png")).2) /\
  exists path,
    Some "x.png" = Some path /\
    outputPath (mkEmbedResult "success" "x_with_metadata.png" "Metadata added successfully")
    = outputPath_of path /\
    outputPath (mkEmbedResult "success" "x_with_metadata.png" "Metadata added successfully")
    <> path.
Proof.
  assert (H : addImageMetadata sharp_copy (Some "x.png") (Some sunset) (one_file "x.png")
              = (Normal (mkEmbedResult "success" "x_with_metadata.png"
                                       "Metadata added successfully"),
                 (addImageMetadata sharp_copy (Some "x.png") (Some sunset)
                    (one_file "x.png")).2))
    by reflexivity.
  split; [exact H |].
  exact (output_is_never_the_source sharp_copy _ _ _ _ _ H).
Defined.

Lemma output_keeps_the_lower_cased_extension_witness :
  supported_ext (ext_of "uploads/photo.JPG") = true /\
  Path.extname (outputPath_of "uploads/photo.JPG") = ext_of "uploads/photo.JPG" /\
  ext_of (outputPath_of "uploads/photo.JPG") = ext_of "uploads/photo.JPG".
Proof.
  assert (H : supported_ext (ext_of "uploads/photo.JPG") = true) by reflexivity.
  split; [exact H |].
  exact (output_keeps_the_lower_cased_extension "uploads/photo.JPG" H).
Defined.

Lemma output_name_for_a_lower_case_extension_witness :
  supported_ext ".jpg" = true /\
  ("a/../b/" = "" \/ exists d, "a/../b/" = d +:+ "/") /\
  "photo" <> "" /\ no_slash (JsString.chars "photo") /\
  ext_of ("a/../b/" +:+ "photo" +:+ ".jpg") = ".jpg" /\
  Path.basename ("a/../b/" +:+ "photo" +:+ ".jpg") ".jpg" = "photo" /\
  exists outdir,
    (outdir = "" \/ exists d, outdir = d +:+ "/") /\
    outputPath_of ("a/../b/" +:+ "photo" +:+ ".jpg")
    = outdir +:+ "photo" +:+ "_with_metadata" +:+ ".jpg".
Proof.
  assert (H1 : supported_ext ".jpg" = true) by reflexivity.
  assert (H2 : "a/../b/" = "" \/ exists d, "a/../b/" = d +:+ "/")
    by (right; exists "a/../b"; reflexivity).
  assert (H3 : "photo" <> "") by discriminate.
  assert (H4 : no_slash (JsString.chars "photo"))
    by (repeat constructor; discriminate).
  split; [exact H1 | split; [exact H2 | split; [exact H3 | split; [exact H4 |]]]].
  exact (output_name_for_a_lower_case_extension "a/../b/" "photo" ".jpg" H1 H2 H3 H4).
Defined.

Lemma output_stays_in_the_directory_witness :
  supported_ext ".png" = true /\
  no_slash (JsString.chars "upload") /\ plain_char "s"%char /\
  "cat" <> "" /\ no_slash (JsString.chars "cat") /\
  outputPath_of ("upload" +:+ String "s"%char "/" +:+ "cat" +:+ ".png")
  = "upload" +:+ String "s"%char "/" +:+ "cat" +:+ "_with_metadata" +:+ ".png" /\
  outputPath_of ("cat" +:+ ".png") = "cat" +:+ "_with_metadata" +:+ ".png".
Proof.
  assert (H1 : supported_ext ".png" = true) by reflexivity.
  assert (H2 : no_slash (JsString.chars "upload")) by (repeat constructor; discriminate).
  assert (H3 : plain_char "s"%char) by (split; discriminate).
  assert (H4 : "cat" <> "") by discriminate.
  assert (H5 : no_slash (JsString.chars "cat")) by (repeat constructor; discriminate).
  split; [exact H1 | split; [exact H2 | split; [exact H3 | split; [exact H4 |
    split; [exact H5 |]]]]].
  exact (output_stays_in_the_directory "upload" "cat" ".png" "s"%char H1 H2 H3 H4 H5).
Defined.

Lemma tiff_slots_witness :
  "scan.TIFF" <> "" /\ is_Some (files (one_file "scan.TIFF") !! "scan.TIFF") /\
  ext_of "scan.TIFF" = ".tiff" /\
  exists options,
    log (addImageMetadata sharp_copy (Some "scan.TIFF") (Some sunset)
           (one_file "scan.TIFF")).2
      = log (one_file "scan.TIFF")
        ++ [EvAccess "scan.TIFF"; EvToFile "scan.TIFF" options (outputPath_of "scan.TIFF")] /\
    get "tiff" options
      = Some (VObj [("ImageDescription", VStr (description sunset));
                    ("DocumentName", VStr (title sunset));
                    ("Keywords", VStr (String.concat ";" (keywords sunset)))]) /\
    get "exif" options = None /\ get "iptc" options = None.
Proof.
  assert (H1 : "scan.TIFF" <> "") by discriminate.
  assert (H2 : is_Some (files (one_file "scan.TIFF") !! "scan.TIFF"))
    by (vm_compute; eauto).
  assert (H3 : ext_of "scan.TIFF" = ".tiff") by reflexivity.
  split; [exact H1 | split; [exact H2 | split; [exact H3 |]]].
  exact (tiff_slots sharp_copy "scan.TIFF" sunset (one_file "scan.TIFF") H1 H2 H3).
Defined.

Lemma webp_slots_witness :
  "a.webp" <> "" /\ is_Some (files (one_file "a.webp") !! "a.webp") /\
  ext_of "a.webp" = ".webp" /\
  exists options,
    log (addImageMetadata sharp_copy (Some "a.webp") (Some sunset) (one_file "a.webp")).2
      = log (one_file "a.webp")
        ++ [EvAccess "a.webp"; EvToFile "a.webp" options (outputPath_of "a.webp")] /\
    get_path ["webp"; "xmp"] options
      = Some (VObj [("Title", VStr (title sunset));
                    ("Description", VStr (description sunset));
                    ("Keywords", VStr (String.concat ", " (keywords sunset)))]).
Proof.
  assert (H1 : "a.webp" <> "") by discriminate.
  assert (H2 : is_Some (files (one_file "a.webp") !! "a.webp")) by (vm_compute; eauto).
  assert (H3 : ext_of "a.webp" = ".webp") by reflexivity.
  split; [exact H1 | split; [exact H2 | split; [exact H3 |]]].
  exact (webp_slots sharp_copy "a.webp" sunset (one_file "a.webp") H1 H2 H3).
Defined.

Lemma png_slots_witness :
  "a.PNG" <> "" /\ is_Some (files (one_file "a.PNG") !! "a.PNG") /\
  ext_of "a.PNG" = ".png" /\
  exists options,
    log (addImageMetadata sharp_copy (Some "a.PNG") (Some sunset) (one_file "a.PNG")).2
      = log (one_file "a.PNG")
        ++ [EvAccess "a.PNG"; EvToFile "a.PNG" options (outputPath_of "a.PNG")] /\
    get_path ["png"; "text"] options
      = Some (VObj [("Title", VStr (title sunset));
                    ("Description", VStr (description sunset));
                    ("Keywords", VStr (String.concat ", " (keywords sunset)))]).
Proof.
  assert (H1 : "a.PNG" <> "") by discriminate.
  assert (H2 : is_Some (files (one_file "a.PNG") !! "a.PNG")) by (vm_compute; eauto).
  assert (H3 : ext_of "a.PNG" = ".png") by reflexivity.
  split; [exact H1 | split; [exact H2 | split; [exact H3 |]]].
  exact (png_slots sharp_copy "a.PNG" sunset (one_file "a.PNG") H1 H2 H3).
Defined.

Lemma jpeg_slots_witness :
  "a/photo.jpeg" <> "" /\ is_Some (files (one_file "a/photo.jpeg") !! "a/photo.jpeg") /\
  (ext_of "a/photo.jpeg" = ".jpg" \/ ext_of "a/photo.jpeg" = ".jpeg") /\
  exists options,
    log (addImageMetadata sharp_copy (Some "a/photo.jpeg") (Some sunset)
           (one_file "a/photo.jpeg")).2
      = log (one_file "a/photo.jpeg")
        ++ [EvAccess "a/photo.jpeg";
            EvToFile "a/photo.jpeg" options (outputPath_of "a/photo.jpeg")] /\
    get_path ["exif"; "IFD0"; "XPTitle"] options = Some (VStr (title sunset)) /\
    get_path ["iptc"; "ObjectName"] options = Some (VStr (title sunset)) /\
    get_path ["exif"; "IFD0"; "ImageDescription"] options = Some (VStr (description sunset)) /\
    get_path ["iptc"; "Caption"] options = Some (VStr (description sunset)) /\
    get_path ["iptc"; "Keywords"] options = Some (VArr (map VStr (keywords sunset))) /\
    get_path ["exif"; "IFD0"; "XPKeywords"] options
      = Some (VStr (String.concat ";" (keywords sunset))).
Proof.
  assert (H1 : "a/photo.jpeg" <> "") by discriminate.
  assert (H2 : is_Some (files (one_file "a/photo.jpeg") !! "a/photo.jpeg"))
    by (vm_compute; eauto).
  assert (H3 : ext_of "a/photo.jpeg" = ".jpg" \/ ext_of "a/photo.jpeg" = ".jpeg")
    by (right; reflexivity).
  split; [exact H1 | split; [exact H2 | split; [exact H3 |]]].
  exact (jpeg_slots sharp_copy "a/photo.jpeg" sunset (one_file "a/photo.jpeg") H1 H2 H3).
Defined.

Lemma fence_is_removed_only_at_the_ends_witness :
  String "010"%char "" <> "" /\ white (JsString.chars (String "010"%char "")) /\
  (exists rest,
     cleanedResponse ("```json" +:+ "[]" +:+ "```" +:+ String "010"%char "")
     = rest +:+ "```") /\
  (exists rest,
     cleanedResponse (String "010"%char "" +:+ "```json" +:+ "[]" +:+ "```")
     = "```json" +:+ rest).
Proof.
  assert (H1 : String "010"%char "" <> "") by discriminate.
  assert (H2 : white (JsString.chars (String "010"%char "")))
    by (repeat constructor).
  split; [exact H1 | split; [exact H2 |]].
  exact (fence_is_removed_only_at_the_ends (String "010"%char "") "[]" H1 H2).
Defined.

Lemma bare_reply_is_left_as_it_is_witness :
  isWhiteSpace "["%char = false /\ isWhiteSpace "]"%char = false /\
  "["%char <> "`"%char /\ "]"%char <> "`"%char /\
  cleanedResponse (String "["%char ("1, 2" +:+ String "]"%char ""))
  = String "["%char ("1, 2" +:+ String "]"%char "").
Proof.
  assert (H1 : isWhiteSpace "["%char = false) by reflexivity.
  assert (H2 : isWhiteSpace "]"%char = false) by reflexivity.
  assert (H3 : "["%char <> "`"%char) by discriminate.
  assert (H4 : "]"%char <> "`"%char) by discriminate.
  split; [exact H1 | split; [exact H2 | split; [exact H3 | split; [exact H4 |]]]].
  exact (bare_reply_is_left_as_it_is "["%char "]"%char "1, 2" H1 H2 H3 H4).
Defined.

(** The route on an entry that has a [path] key of its own: the reply carries
    the entry's value where the output path was, and the keys after it in
    the order of the entry. *)
Example own_path_key_replaces_the_output_path :
  (processUpload sharp_copy "uploads/a.png" [renamed_entry] (one_file "uploads/a.png")).1
  = Normal (mkResponse 200
              (VArr [VObj [("path", VStr "evil");
                           ("title", VStr "Sunset");
                           ("description", VStr "A beach at dusk");
                           ("keywords", VArr [VStr "beach"; VStr "sunset"])]])).
Proof. reflexivity. Qed.

Lemma missing_entry_rejects_the_upload_witness :
  (length [sunset_entry] <= 1)%nat /\
  processImage sharp_copy "uploads/b.png" 1 [sunset_entry] (one_file "uploads/b.png")
  = (Throw (Error "Failed to add metadata: Image path and metadata are required"),
     one_file "uploads/b.png").
Proof.
  assert (H : (length [sunset_entry] <= 1)%nat) by (simpl; lia).
  split; [exact H |].
  exact (missing_entry_rejects_the_upload sharp_copy "uploads/b.png" 1 [sunset_entry]
           (one_file "uploads/b.png") H).
Defined.

